(** * Smart table library: data pipeline of [table-library.js]

    A shallow embedding of the data side of the [TableLibrary] class
    (column hiding, cell modification, the sort/filter view state, metric
    aggregation, cell classification for display and export, CSV export)
    together with the properties its specification states about them.

    Conventions of the embedding.
    - JavaScript numbers are IEEE 754 binary64 values: Rocq's primitive
      [float].  [Number::toString] and [Number.prototype.toFixed] follow
      ECMA-262 on the exact value of the float.
    - A [string] is a JavaScript string all of whose code units are below
      256, and a character is its code unit.  On these strings
      [toLowerCase], [trim] and [includes] are the functions of ECMA-262:
      the code points below 256 with a lower-case form are A to Z, U+00C0
      to U+00D6 and U+00D8 to U+00DE, each 32 below its lower-case form,
      and those that [trim] removes are U+0009 to U+000D, U+0020 and
      U+00A0.  Strings with other code units are not represented.  A
      character above 127 is written [ascii_of_nat n] with its code
      point [n], a string literal holding its bytes in another
      encoding.
    - Arrays that the program shares or updates in place live in a store
      and are named by locations.
    - Host functions whose result depends on locale data or on the time zone
      ([String.prototype.localeCompare], [Intl.DateTimeFormat],
      [Date.prototype.toString], [Date.prototype.toISOString]) are parameters
      of the development.
    - The markup returned by [renderCell] is the string the template
      literals of the source denote, with their line breaks and
      indentation.
    - The document is not represented.  What [filterTable] reads from it,
      the values of the filter inputs and the text of the cells of the
      rows of the table body, is an argument of the filter action. *)

From Stdlib Require Import ZArith NArith String Ascii List Floats Uint63 Lia.
From Stdlib Require Import Sorting.Permutation.
From stdpp Require Import gmap strings list pretty.

Local Open Scope string_scope.
Local Open Scope Z_scope.

(* ===================================================================== *)
(** * Strings *)
(* ===================================================================== *)

Module JsString.

(** [Array.prototype.join] on already converted elements. *)
Fixpoint join (sep : string) (xs : list string) : string :=
  match xs with
  | [] => ""
  | [x] => x
  | x :: rest => x +:+ sep +:+ join sep rest
  end.

(** [n] copies of a character. *)
Fixpoint repeat_char (c : ascii) (n : nat) : string :=
  match n with
  | O => ""
  | S n' => String c (repeat_char c n')
  end.

(** [s.substring(0, n)] and [s.substring(n)]. *)
Fixpoint take (n : nat) (s : string) : string :=
  match n, s with
  | S n', String c s' => String c (take n' s')
  | _, _ => ""
  end.

Fixpoint drop (n : nat) (s : string) : string :=
  match n, s with
  | S n', String _ s' => drop n' s'
  | _, _ => s
  end.

(** [s.startsWith(p)]. *)
Fixpoint starts_with (p s : string) : bool :=
  match p, s with
  | "", _ => true
  | String a p', String b s' => if Ascii.eqb a b then starts_with p' s' else false
  | String _ _, "" => false
  end.

(** [s.includes(p)]. *)
Fixpoint includes (s p : string) : bool :=
  starts_with p s ||
  match s with
  | "" => false
  | String _ s' => includes s' p
  end.

(** [String.prototype.toLowerCase].  Below 256 the code points with a
    lower-case form of their own are A to Z (65 to 90), U+00C0 to U+00D6
    (192 to 214) and U+00D8 to U+00DE (216 to 222); the form is 32 above,
    and no conversion of these depends on the characters around. *)
Definition lower_char (c : ascii) : ascii :=
  let n := nat_of_ascii c in
  if ((65 <=? n)%nat && (n <=? 90)%nat)
     || ((192 <=? n)%nat && (n <=? 214)%nat)
     || ((216 <=? n)%nat && (n <=? 222)%nat)
  then ascii_of_nat (n + 32) else c.

Fixpoint toLowerCase (s : string) : string :=
  match s with
  | "" => ""
  | String c s' => String (lower_char c) (toLowerCase s')
  end.

(** The white space and line terminators that [String.prototype.trim]
    removes, below 256: U+0009 to U+000D, U+0020 and U+00A0. *)
Definition is_space (c : ascii) : bool :=
  let n := nat_of_ascii c in
  (n =? 32)%nat || (n =? 160)%nat || ((9 <=? n)%nat && (n <=? 13)%nat).

Fixpoint trim_start (s : string) : string :=
  match s with
  | String c s' => if is_space c then trim_start s' else s
  | "" => ""
  end.

Fixpoint rev_append (s acc : string) : string :=
  match s with
  | "" => acc
  | String c s' => rev_append s' (String c acc)
  end.

Definition rev (s : string) : string := rev_append s "".

Definition trim (s : string) : string :=
  rev (trim_start (rev (trim_start s))).

(** The double quote character (code 34). *)
Definition dquote : ascii := ascii_of_nat 34.

(** [s.replace(re, rep)] for the global pattern matching one double quote
    and the replacement made of two: every double quote is doubled. *)
Fixpoint double_quotes (s : string) : string :=
  match s with
  | EmptyString => EmptyString
  | String c s' =>
      if Ascii.eqb c dquote
      then String c (String c (double_quotes s'))
      else String c (double_quotes s')
  end.

Definition is_digit (c : ascii) : bool :=
  let n := nat_of_ascii c in (48 <=? n)%nat && (n <=? 57)%nat.

End JsString.

(* ===================================================================== *)
(** * Numbers *)
(* ===================================================================== *)

Module JsNumber.

(** Decimal digits of a non-negative integer. *)
Definition digits (n : Z) : string := pretty (Z.to_N n).

(** The Number value of a small non-negative integer (an array length or
    an index). *)
Definition of_nat (n : nat) : float :=
  PrimFloat.of_uint63 (Uint63.of_Z (Z.of_nat n)).

(** [typeof v === 'number' && !isNaN(v)] on a number. *)
Definition isNaN (x : float) : bool := PrimFloat.is_nan x.

(** ** [Number::toString] (radix 10), ECMA-262 6.1.6.1.20.

    A finite non-zero float is [m * 2^e].  The reals that round to it are
    those between the midpoints with its two neighbours, the midpoints
    included when [m] is even.  In units of [2^(e-2)] the float is [4m],
    the upper midpoint [4m+2] and the lower one [4m-2], or [4m-1] when the
    float is a power of two above the subnormal range. *)

Definition lower_gap (m e : Z) : Z :=
  if (m =? 2 ^ 52) && (-1074 <? e) then 1 else 2.

(** Scaling of [n * 2^e2] and of [s * 10^p] to a common integer unit. *)
Definition scale_bin (e2 p n : Z) : Z :=
  n * 2 ^ Z.max e2 0 * 10 ^ Z.max (- p) 0.

Definition scale_dec (e2 p s : Z) : Z :=
  s * 10 ^ Z.max p 0 * 2 ^ Z.max (- e2) 0.

(** Does [s * 10^p] round to the float [m * 2^e]? *)
Definition rounds_to (m e p s : Z) : bool :=
  let e2 := e - 2 in
  let lo := scale_bin e2 p (4 * m - lower_gap m e) in
  let hi := scale_bin e2 p (4 * m + 2) in
  let v := scale_dec e2 p s in
  if Z.even m then (lo <=? v) && (v <=? hi) else (lo <? v) && (v <? hi).

(** The multiple of [10^p] nearest to the float among those that round to
    it (the even one on a tie), if there is one. *)
Definition candidate (m e p : Z) : option Z :=
  let e2 := e - 2 in
  let x := scale_bin e2 p (4 * m) in
  let unit := scale_dec e2 p 1 in
  let s0 := x / unit in
  let s1 := s0 + 1 in
  let ok0 := (0 <? s0) && rounds_to m e p s0 in
  let ok1 := rounds_to m e p s1 in
  let d0 := x - s0 * unit in
  let d1 := s1 * unit - x in
  match ok0, ok1 with
  | true, true =>
      if d0 <? d1 then Some s0
      else if d1 <? d0 then Some s1
      else if Z.even s0 then Some s0 else Some s1
  | true, false => Some s0
  | false, true => Some s1
  | false, false => None
  end.

(** Search for the largest exponent [p] with a candidate: it has the
    fewest digits. *)
Fixpoint shortest (fuel : nat) (m e p : Z) : Z * Z :=
  match fuel with
  | O => (m * 2 ^ Z.max e 0, 0)
  | S fuel' =>
      match candidate m e p with
      | Some s => (s, p)
      | None => shortest fuel' m e (p - 1)
      end
  end.

(** An exponent [p] with [10^p] above the float. *)
Definition start_exponent (m e : Z) : Z :=
  ((Z.log2 m + 1 + e) * 30103) / 100000 + 1.

(** Steps 6 to 9: the layout of the digits [s] (there are [k]) for the
    value [s * 10^(n-k)]. *)
Definition layout (s n : Z) : string :=
  let ds := digits s in
  let k := Z.of_nat (String.length ds) in
  if (-5 <=? n) && (n <=? 21) then
    if k <=? n then ds +:+ JsString.repeat_char "0" (Z.to_nat (n - k))
    else if 0 <? n then
      JsString.take (Z.to_nat n) ds +:+ "." +:+ JsString.drop (Z.to_nat n) ds
    else "0." +:+ JsString.repeat_char "0" (Z.to_nat (- n)) +:+ ds
  else
    let ex := n - 1 in
    let sign := if ex <? 0 then "-" else "+" in
    let mant :=
      if k =? 1 then ds
      else JsString.take 1 ds +:+ "." +:+ JsString.drop 1 ds in
    mant +:+ "e" +:+ sign +:+ digits (Z.abs ex).

Definition finite_toString (m e : Z) : string :=
  let '(s, p) := shortest 40 m e (start_exponent m e) in
  layout s (p + Z.of_nat (String.length (digits s))).

Definition toString (x : float) : string :=
  match Prim2SF x with
  | S754_nan => "NaN"
  | S754_zero _ => "0"
  | S754_infinity false => "Infinity"
  | S754_infinity true => "-Infinity"
  | S754_finite sign m e =>
      (if sign then "-" else "") +:+ finite_toString (Z.pos m) e
  end.

(** ** [Number.prototype.toFixed(2)], ECMA-262 21.1.3.3.

    [n] is the integer nearest to [100 * |x|], the larger one on a tie;
    from [10^21] on the result is [Number::toString]. *)
Definition round_hundredths (m e : Z) : Z :=
  if 0 <=? e then m * 2 ^ e * 100
  else (2 * (m * 100) + 2 ^ (- e)) / (2 * 2 ^ (- e)).

Definition fixed2_digits (n : Z) : string :=
  digits (n / 100) +:+ "." +:+ digits (n / 10 mod 10) +:+ digits (n mod 10).

Definition at_least_1e21 (m e : Z) : bool :=
  if 0 <=? e then 10 ^ 21 <=? m * 2 ^ e
  else 10 ^ 21 * 2 ^ (- e) <=? m.

Definition toFixed2 (x : float) : string :=
  match Prim2SF x with
  | S754_finite sign m e =>
      (if sign then "-" else "") +:+
      (if at_least_1e21 (Z.pos m) e then finite_toString (Z.pos m) e
       else fixed2_digits (round_hundredths (Z.pos m) e))
  | S754_zero _ => "0.00"
  | _ => toString x
  end.

(** ** Arithmetic used by the table. *)

(** [values.reduce((a, b) => a + b, 0)]. *)
Definition sum (values : list float) : float :=
  fold_left PrimFloat.add values 0%float.

(** [Math.max(...values)], ECMA-262 21.3.2.24. *)
Definition max_step (highest number : float) : float :=
  if PrimFloat.is_nan highest || PrimFloat.is_nan number then PrimFloat.nan
  else if PrimFloat.ltb highest number then number
  else if PrimFloat.eqb number 0 && PrimFloat.eqb highest 0
          && negb (PrimFloat.get_sign number) then number
  else highest.

Definition Math_max (values : list float) : float :=
  fold_left max_step values PrimFloat.neg_infinity.

(** [Math.min(...values)], ECMA-262 21.3.2.25. *)
Definition min_step (lowest number : float) : float :=
  if PrimFloat.is_nan lowest || PrimFloat.is_nan number then PrimFloat.nan
  else if PrimFloat.ltb number lowest then number
  else if PrimFloat.eqb number 0 && PrimFloat.eqb lowest 0
          && PrimFloat.get_sign number then number
  else lowest.

Definition Math_min (values : list float) : float :=
  fold_left min_step values PrimFloat.infinity.

(** The sign a sort comparator's result stands for: negative, positive,
    or neither (zero and NaN). *)
Definition sign_of (x : float) : comparison :=
  if PrimFloat.ltb x 0 then Lt
  else if PrimFloat.ltb 0 x then Gt
  else Eq.

(** [ToBoolean] of a number. *)
Definition truthy (x : float) : bool :=
  negb (PrimFloat.is_nan x || PrimFloat.eqb x 0).

End JsNumber.

(* ===================================================================== *)
(** * The host platform *)
(* ===================================================================== *)

(** Library functions of the JavaScript engine whose results depend on
    locale data or on the local time zone.  A date is passed as its time
    value, the number of milliseconds since the epoch. *)
Record Host := {
  (** [a.localeCompare(b)]: negative, zero or positive. *)
  localeCompare : string -> string -> Z;
  (** [new Intl.DateTimeFormat('en-IN', options).format(d)]; the flag selects
      the date-only options, otherwise the date and time options are used. *)
  dateTimeFormat : bool -> Z -> string;
  (** [Date.prototype.toString] of a valid date. *)
  dateToString : Z -> string;
  (** [Date.prototype.toISOString] of a valid date. *)
  dateToISOString : Z -> string
}.

(* ===================================================================== *)
(** * Cell values *)
(* ===================================================================== *)

(** The JavaScript values a cell can hold.  A [Date] carries its time value,
    [None] when it is NaN (an invalid date).  An object is the ordered list of
    its own properties. *)
#[local] Set Warnings "-register-all".

Inductive value :=
| VUndefined
| VNull
| VBool (b : bool)
| VNum (x : float)
| VStr (s : string)
| VDate (t : option Z)
| VArr (items : list value)
| VObj (fields : list (string * value)).

Module JsValue.

(** [cell === null || cell === undefined]. *)
Definition is_nullish (v : value) : bool :=
  match v with VUndefined | VNull => true | _ => false end.

(** [typeof cell === 'object' && cell !== null]. *)
Definition is_object (v : value) : bool :=
  match v with VDate _ | VArr _ | VObj _ => true | _ => false end.

Definition is_boolean (v : value) : bool :=
  match v with VBool _ => true | _ => false end.

Definition is_number (v : value) : bool :=
  match v with VNum _ => true | _ => false end.

(** [Array.isArray(cell)]. *)
Definition isArray (v : value) : bool :=
  match v with VArr _ => true | _ => false end.

(** [cell instanceof Date && !isNaN(cell.getTime())]. *)
Definition is_valid_date (v : value) : bool :=
  match v with VDate (Some _) => true | _ => false end.

(** [typeof v === 'number' && !isNaN(v)]. *)
Definition is_numeric (v : value) : bool :=
  match v with VNum x => negb (JsNumber.isNaN x) | _ => false end.

Fixpoint assoc (k : string) (fields : list (string * value)) : value :=
  match fields with
  | [] => VUndefined
  | (k', v) :: rest => if String.eqb k k' then v else assoc k rest
  end.

(** Property read [cell.k] on an object value. *)
Definition get_prop (v : value) (k : string) : value :=
  match v with
  | VObj fields => assoc k fields
  | _ => VUndefined
  end.

(** [cell.type === tag]. *)
Definition type_is (v : value) (tag : string) : bool :=
  match get_prop v "type" with
  | VStr s => String.eqb s tag
  | _ => false
  end.

(** [ToBoolean]. *)
Definition truthy (v : value) : bool :=
  match v with
  | VUndefined | VNull => false
  | VBool b => b
  | VNum x => JsNumber.truthy x
  | VStr s => negb (String.eqb s "")
  | VDate _ | VArr _ | VObj _ => true
  end.

(** [a || b]. *)
Definition or_else (a b : value) : value := if truthy a then a else b.

Section WithHost.
Variable host : Host.

(** [ToString], as applied by [String(v)] and by template literals.
    Arrays convert through [join(',')]; plain objects through
    [Object.prototype.toString]. *)
Fixpoint ToString (v : value) : string :=
  match v with
  | VUndefined => "undefined"
  | VNull => "null"
  | VBool true => "true"
  | VBool false => "false"
  | VNum x => JsNumber.toString x
  | VStr s => s
  | VDate None => "Invalid Date"
  | VDate (Some t) => dateToString host t
  | VArr items =>
      JsString.join ","
        (map (fun x => match x with
                       | VUndefined | VNull => ""
                       | _ => ToString x
                       end) items)
  | VObj _ => "[object Object]"
  end.

(** [items.join(sep)]: null and undefined elements give the empty
    string. *)
Definition join_item (v : value) : string :=
  if is_nullish v then "" else ToString v.

Definition array_join (sep : string) (items : list value) : string :=
  JsString.join sep (map join_item items).

(** ** [JSON.stringify], ECMA-262 25.5.2 *)

Definition nl : string := String (ascii_of_nat 10) "".

Definition hex_digit (n : nat) : ascii :=
  if (n <? 10)%nat then ascii_of_nat (48 + n) else ascii_of_nat (87 + n).

(** [QuoteJSONString] on one character. *)
Definition quote_char (c : ascii) : string :=
  let n := nat_of_ascii c in
  if (n =? 8)%nat then "\b"
  else if (n =? 9)%nat then "\t"
  else if (n =? 10)%nat then "\n"
  else if (n =? 12)%nat then "\f"
  else if (n =? 13)%nat then "\r"
  else if (n =? 34)%nat then String "\" (String JsString.dquote "")
  else if (n =? 92)%nat then "\\"
  else if (n <? 32)%nat then
    "\u00" +:+ String (hex_digit (n / 16)) (String (hex_digit (n mod 16)) "")
  else String c "".

Fixpoint quote_chars (s : string) : string :=
  match s with
  | "" => ""
  | String c s' => quote_char c +:+ quote_chars s'
  end.

Definition quote (s : string) : string :=
  String JsString.dquote (quote_chars s) +:+ String JsString.dquote "".

(** The brackets around the serialized members of an object or array. *)
Definition wrap (opening closing gap indent : string)
           (members : list string) : string :=
  match members with
  | [] => opening +:+ closing
  | _ =>
      if String.eqb gap "" then
        opening +:+ JsString.join "," members +:+ closing
      else
        let inner := indent +:+ gap in
        opening +:+ nl +:+ inner
        +:+ JsString.join ("," +:+ nl +:+ inner) members
        +:+ nl +:+ indent +:+ closing
  end.

(** [SerializeJSONProperty]: [None] stands for undefined.  A date is
    serialized through [toJSON], which answers null for an invalid
    date and the ISO string otherwise. *)
Fixpoint serialize (gap indent : string) (v : value) : option string :=
  match v with
  | VUndefined => None
  | VNull => Some "null"
  | VBool true => Some "true"
  | VBool false => Some "false"
  | VNum x =>
      Some (if PrimFloat.is_finite x then JsNumber.toString x else "null")
  | VStr s => Some (quote s)
  | VDate None => Some "null"
  | VDate (Some t) => Some (quote (dateToISOString host t))
  | VArr items =>
      Some (wrap "[" "]" gap indent
              (map (fun x => match serialize gap (indent +:+ gap) x with
                             | Some s => s
                             | None => "null"
                             end) items))
  | VObj fields =>
      Some (wrap "{" "}" gap indent
              ((fix members (fs : list (string * value)) : list string :=
                  match fs with
                  | [] => []
                  | (k, x) :: rest =>
                      match serialize gap (indent +:+ gap) x with
                      | Some s =>
                          (quote k +:+ ":"
                           +:+ (if String.eqb gap "" then "" else " ")
                           +:+ s) :: members rest
                      | None => members rest
                      end
                  end) fields))
  end.

(** [JSON.stringify(v, null, space)] with [gap] the indentation unit:
    the empty string when [space] is absent, two blanks for 2. *)
Definition JSON_stringify (gap : string) (v : value) : value :=
  match serialize gap "" v with
  | Some s => VStr s
  | None => VUndefined
  end.

End WithHost.

End JsValue.

(* ===================================================================== *)
(** * Markup *)
(* ===================================================================== *)

(** The pieces the template literals of [renderCell] are written with. *)
Module Markup.

(** A double quote, as a string. *)
Definition q : string := String JsString.dquote "".

(** A line break of a template literal. *)
Definition br : string := String (ascii_of_nat 10) "".

(** An attribute: its name, the equals sign, and its value between double
    quotes.  The value is written as it is: the source escapes nothing. *)
Definition attr (name value : string) : string :=
  name +:+ "=" +:+ q +:+ value +:+ q.

End Markup.

(* ===================================================================== *)
(** * Cell classification: [renderCell] and [getCellTextContent] *)
(* ===================================================================== *)

Module Cell.
Import JsValue Markup.

Section WithHost.
Variable host : Host.

(** [getUTCHours() === 0 && getUTCMinutes() === 0 &&
    getUTCSeconds() === 0] on a time value. *)
Definition isDateOnly (t : Z) : bool :=
  ((t / 3600000) mod 24 =? 0)
  && ((t / 60000) mod 60 =? 0)
  && ((t / 1000) mod 60 =? 0).

(** [formatDateOrTimestamp(dateObj)]. *)
Definition formatDateOrTimestamp (dateObj : value) : string :=
  match dateObj with
  | VDate (Some t) => dateTimeFormat host (isDateOnly t) t
  | _ => ""
  end.

Definition str (v : value) : string := ToString host v.

(** The label with the check box of an action cell: the inner template
    literal of the button branch. *)
Definition checkbox_markup (cell : value) (rowIndex : nat) : string :=
  let checkedAttr :=
    if truthy (get_prop cell "checkboxValue") then "checked" else "" in
  br
  +:+ "                <label "
  +:+ attr "class" "table-library-checkbox-label" +:+ ">" +:+ br
  +:+ "                  <input " +:+ attr "type" "checkbox" +:+ " "
  +:+ checkedAttr +:+ br
  +:+ "                    "
  +:+ attr "class" "table-library-action-checkbox" +:+ " " +:+ br
  +:+ "                    "
  +:+ attr "data-row-index" (pretty rowIndex) +:+ br
  +:+ "                    "
  +:+ attr "data-fn" (str (get_prop cell "function")) +:+ " />" +:+ br
  +:+ "                  <span>"
  +:+ str (or_else (get_prop cell "checkboxLabel") (VStr "Mark"))
  +:+ "</span>" +:+ br
  +:+ "                </label>" +:+ br
  +:+ "              ".

(** The template literal of the button branch. *)
Definition button_markup (cell : value) (rowIndex : nat) : string :=
  let hasCheckbox :=
    if truthy (get_prop cell "checkbox") then "has-checkbox" else "" in
  br
  +:+ "            <div "
  +:+ attr "class" ("table-library-action-cell " +:+ hasCheckbox)
  +:+ ">" +:+ br
  +:+ "              <button "
  +:+ attr "class" "table-library-action-btn" +:+ " " +:+ br
  +:+ "                      "
  +:+ attr "data-fn" (str (get_prop cell "function")) +:+ " " +:+ br
  +:+ "                      "
  +:+ attr "data-row-index" (pretty rowIndex) +:+ ">" +:+ br
  +:+ "                "
  +:+ str (or_else (get_prop cell "placeholder") (VStr "Action")) +:+ br
  +:+ "              </button>" +:+ br
  +:+ "              "
  +:+ (if truthy (get_prop cell "checkbox")
       then checkbox_markup cell rowIndex else "") +:+ br
  +:+ "            </div>" +:+ br
  +:+ "          ".

(** [renderCell(cell, rowIndex, colIndex)]: the markup of the cell, a
    string.  The interpolated values are converted by [ToString] and
    written as they are, nothing is escaped.  The tests are made in the
    order of the source: the object test comes before the array and the
    date tests. *)
Definition renderCell (cell : value) (rowIndex colIndex : nat) : string :=
  if is_nullish cell then
    "<span " +:+ attr "class" "table-library-null" +:+ ">-</span>"
  else if is_object cell then
    if type_is cell "url" then
      "<a " +:+ attr "href" (str (get_prop cell "value"))
      +:+ " " +:+ attr "target" "_blank"
      +:+ " " +:+ attr "class" "table-library-url" +:+ ">"
      +:+ str (or_else (get_prop cell "placeholder") (VStr "Open"))
      +:+ "</a>"
    else if type_is cell "button" then button_markup cell rowIndex
    else
      "<pre " +:+ attr "class" "table-library-object" +:+ ">"
      +:+ str (JSON_stringify host "  " cell) +:+ "</pre>"
  else if isArray cell then
    match cell with
    | VArr [] => "<span " +:+ attr "class" "table-library-empty" +:+ ">[]</span>"
    | VArr items =>
        "<span " +:+ attr "class" "table-library-array"
        +:+ " " +:+ attr "title" (array_join host ", " items)
        +:+ ">[" +:+ array_join host ", " items +:+ "]</span>"
    | _ => ""
    end
  else if is_valid_date cell then
    "<span " +:+ attr "class" "table-library-date" +:+ ">"
    +:+ formatDateOrTimestamp cell +:+ "</span>"
  else
    match cell with
    | VBool b =>
        "<span "
        +:+ attr "class"
              ("table-library-boolean " +:+ (if b then "true" else "false"))
        +:+ ">" +:+ (if b then "Yes" else "No") +:+ "</span>"
    | VNum _ =>
        "<span " +:+ attr "class" "table-library-number" +:+ ">"
        +:+ str cell +:+ "</span>"
    | _ =>
        let text := str cell in
        "<span " +:+ attr "class" "table-library-text"
        +:+ " " +:+ attr "title" text +:+ ">" +:+ text +:+ "</span>"
    end.

(** [getCellTextContent(cell)].  The result is a JavaScript value: the
    placeholder of a link or of a button is returned as it is. *)
Definition getCellTextContent (cell : value) : value :=
  if is_nullish cell then VStr ""
  else if is_object cell then
    if type_is cell "url" then
      or_else (get_prop cell "placeholder") (VStr "Open")
    else if type_is cell "button" then
      or_else (get_prop cell "placeholder") (VStr "Action")
    else
      match cell with
      | VArr items => VStr (array_join host "; " items)
      | VDate (Some _) => VStr (formatDateOrTimestamp cell)
      | _ => JSON_stringify host "" cell
      end
  else
    match cell with
    | VBool b => VStr (if b then "Yes" else "No")
    | _ => VStr (str cell)
    end.

(** The text a cell has in the CSV export: [String(cellValue)] of
    [getCellTextContent]. *)
Definition exportText (cell : value) : string :=
  str (getCellTextContent cell).

End WithHost.

End Cell.

(* ===================================================================== *)
(** * The store: arrays with identity *)
(* ===================================================================== *)

(** Row arrays and arrays of rows are JavaScript objects: two fields can
    name the same array, and [Array.prototype.sort] updates its array in
    place.  They live in a store indexed by locations; a cell value is
    immutable data.

    An array all of whose elements are rows is an [OArray].  An array of
    which some element is [undefined], written [None], is an [OSparse]:
    [filterTable] builds one when a row of the table body that passes the
    filters has no row of [displayData] at its index. *)
Abbreviation loc := positive.

Inductive obj :=
| ORow (cells : list value)
| OArray (rows : list loc)
| OSparse (entries : list (option loc)).

Abbreviation store := (gmap loc obj).

Module Store.

(** The cells of the row at [l], and the rows of the array at [l]. *)
Definition row_at (σ : store) (l : loc) : list value :=
  match σ !! l with Some (ORow cells) => cells | _ => [] end.

Definition rows_at (σ : store) (l : loc) : list loc :=
  match σ !! l with Some (OArray rows) => rows | _ => [] end.

(** The location holds an array all of whose elements are rows. *)
Definition is_array (σ : store) (l : loc) : bool :=
  match σ !! l with Some (OArray _) => true | _ => false end.

(** The elements of the array at [l], [None] for [undefined]. *)
Definition entries_at (σ : store) (l : loc) : list (option loc) :=
  match σ !! l with
  | Some (OArray rows) => map Some rows
  | Some (OSparse entries) => entries
  | _ => []
  end.

(** [array[index]]: [None] for [undefined], which is also the answer
    beyond the end of the array. *)
Definition element (σ : store) (l : loc) (index : nat) : option loc :=
  match entries_at σ l !! index with
  | Some entry => entry
  | None => None
  end.

(** The elements that are rows, in order. *)
Definition defined_rows (σ : store) (l : loc) : list loc :=
  omap id (entries_at σ l).

(** The rows of a list of elements none of which is [undefined]. *)
Fixpoint all_defined (entries : list (option loc)) : option (list loc) :=
  match entries with
  | [] => Some []
  | Some r :: rest =>
      match all_defined rest with
      | Some rows => Some (r :: rows)
      | None => None
      end
  | None :: _ => None
  end.

(** The rows of the array at [l] when none of its elements is
    [undefined]: what a loop needs that reads a property of every
    element. *)
Definition rows_of (σ : store) (l : loc) : option (list loc) :=
  all_defined (entries_at σ l).

(** The array object with the given elements. *)
Definition array_of (entries : list (option loc)) : obj :=
  match all_defined entries with
  | Some rows => OArray rows
  | None => OSparse entries
  end.

(** The two-dimensional contents of the array of rows at [l]. *)
Definition table_at (σ : store) (l : loc) : list (list value) :=
  map (row_at σ) (rows_at σ l).

(** A new object: its location is not in use. *)
Definition alloc (o : obj) (σ : store) : loc * store :=
  let l := fresh (dom σ) in (l, <[l := o]> σ).

Fixpoint alloc_list (os : list obj) (σ : store) : list loc * store :=
  match os with
  | [] => ([], σ)
  | o :: rest =>
      let '(l, σ1) := alloc o σ in
      let '(ls, σ2) := alloc_list rest σ1 in
      (l :: ls, σ2)
  end.

(** [data.map((row, i) => f(i, row))] where [f] builds a new row array:
    one new row per row of [data], and a new array holding them. *)
Definition new_rows (f : nat -> list value -> list value)
           (data : loc) (σ : store) : list obj :=
  imap (fun i l => ORow (f i (row_at σ l))) (rows_at σ data).

Definition map_rows (f : nat -> list value -> list value)
           (data : loc) (σ : store) : loc * store :=
  let '(ls, σ1) := alloc_list (new_rows f data σ) σ in
  alloc (OArray ls) σ1.

(** [[...data]]: a new array with the same rows. *)
Definition copy_array (data : loc) (σ : store) : loc * store :=
  alloc (OArray (rows_at σ data)) σ.

#[global] Arguments alloc : simpl never.
#[global] Arguments copy_array : simpl never.
#[global] Arguments map_rows : simpl never.

End Store.

(* ===================================================================== *)
(** * The table *)
(* ===================================================================== *)

(** An entry of [config.hideColumns]: a column index or a heading label.
    An index is an integer; a number that is not an integer is the position
    of no column, like an index beyond the last column. *)
Inductive hide_spec :=
| HideIndex (i : Z)
| HideLabel (label : string).

(** [config.hideColumns]: an array of entries, or a single entry. *)
Inductive hide_config :=
| HideMany (specs : list hide_spec)
| HideOne (spec : hide_spec).

(** The outcome of calling a user function. *)
Inductive outcome :=
| Returns (v : value)
| Throws.

(** A modification rule [(cell, row, rowIndex, colIndex) => newCell]: a
    function of its arguments, which returns a cell or throws.  It reads
    and writes nothing else. *)
Definition rule := value -> list value -> nat -> nat -> outcome.

(** The fields of [this.config] the data pipeline reads.  [modifyConfig]
    holds the function-valued properties of the configured object, [None]
    when the configured value is falsy.  The arrays of headings are never
    written by the class and are kept as lists. *)
Record Config := {
  config_headings : list string;
  config_data : loc;
  config_hideColumns : hide_config;
  config_modifyConfig : option (gmap string rule)
}.

Inductive Direction := Asc | Desc.

(** [this.sortState]; [None] stands for null. *)
Record SortState := {
  colIndex : option nat;
  direction : option Direction
}.

(** The fields of a [TableLibrary] instance. *)
Record Table := {
  config : Config;
  sortState : SortState;
  processedData : loc;
  processedHeadings : list string;
  filteredData : loc;
  displayData : loc
}.

#[global] Instance Direction_eq_dec : EqDecision Direction.
Proof. solve_decision. Defined.

Module TableLibrary.
Import JsValue Store.

(** ** [hideColumns] *)

(** [headings.indexOf(label)]: the first position, or -1. *)
Fixpoint indexOf_from (i : nat) (label : string) (l : list string) : Z :=
  match l with
  | [] => -1
  | h :: rest =>
      if String.eqb h label then Z.of_nat i
      else indexOf_from (S i) label rest
  end.

Definition indexOf (l : list string) (label : string) : Z :=
  indexOf_from 0 label l.

(** [Array.isArray(c) ? c : [c]]. *)
Definition hide_list (hc : hide_config) : list hide_spec :=
  match hc with
  | HideMany specs => specs
  | HideOne spec => [spec]
  end.

(** [typeof col === 'number' ? col : headings.indexOf(col)]. *)
Definition resolve (hs : list string) (col : hide_spec) : Z :=
  match col with
  | HideIndex i => i
  | HideLabel label => indexOf hs label
  end.

Definition hideIndexes (hs : list string) (hc : hide_config) : list Z :=
  List.filter (fun i => 0 <=? i) (map (resolve hs) (hide_list hc)).

(** [hideIndexes.includes(i)]. *)
Definition includes (idx : list Z) (i : nat) : bool :=
  existsb (Z.eqb (Z.of_nat i)) idx.

(** [l.filter((_, i) => keep(i))]. *)
Fixpoint filter_from {A} (keep : nat -> bool) (i : nat) (l : list A) : list A :=
  match l with
  | [] => []
  | x :: rest =>
      if keep i then x :: filter_from keep (S i) rest
      else filter_from keep (S i) rest
  end.

Definition filter_index {A} (keep : nat -> bool) (l : list A) : list A :=
  filter_from keep 0 l.

Definition hideColumns (c : Config) (hs : list string) (d : loc)
           (σ : store) : (list string * loc) * store :=
  let idx := hideIndexes hs (config_hideColumns c) in
  let keep := fun i => negb (includes idx i) in
  let '(d', σ') := map_rows (fun _ row => filter_index keep row) d σ in
  ((filter_index keep hs, d'), σ').

(** ** [applyModifications] *)

(** [headings[colIndex]] used as a property key. *)
Definition heading_key (hs : list string) (colIndex : nat) : string :=
  match hs !! colIndex with
  | Some h => h
  | None => "undefined"
  end.

(** The key of a coordinate rule: row index, comma, column index. *)
Definition coordinate_key (rowIndex colIndex : nat) : string :=
  pretty rowIndex +:+ "," +:+ pretty colIndex.

(** The body of the inner [map] callback.  [modified] starts as the cell;
    a rule that throws leaves the [try] block, and [modified] keeps the
    value it had. *)
Definition modify_cell (mc : gmap string rule) (hs : list string)
           (row : list value) (rowIndex colIndex : nat) (cell : value) : value :=
  let ruleByHeading := mc !! heading_key hs colIndex in
  let ruleByIndex := mc !! coordinate_key rowIndex colIndex in
  let after_heading :=
    match ruleByHeading with
    | Some f => f cell row rowIndex colIndex
    | None => Returns cell
    end in
  match after_heading with
  | Throws => cell
  | Returns modified =>
      match ruleByIndex with
      | Some g =>
          match g cell row rowIndex colIndex with
          | Returns v => v
          | Throws => modified
          end
      | None => modified
      end
  end.

Definition modify_row (mc : gmap string rule) (hs : list string)
           (rowIndex : nat) (row : list value) : list value :=
  imap (fun colIndex cell => modify_cell mc hs row rowIndex colIndex cell) row.

Definition applyModifications (c : Config) (d : loc) (hs : list string)
           (σ : store) : loc * store :=
  match config_modifyConfig c with
  | None => (d, σ)
  | Some mc => map_rows (modify_row mc hs) d σ
  end.

(** ** [calculateMetric] *)

(** [row[colIndex]]. *)
Definition cell_at (row : list value) (i : nat) : value :=
  match row !! i with
  | Some v => v
  | None => VUndefined
  end.

Definition number_of (v : value) : float :=
  match v with
  | VNum x => x
  | _ => PrimFloat.nan
  end.

(** The numbers of a column: [rows.map(row => row[colIndex])] filtered by
    [typeof v === 'number' && !isNaN(v)]. *)
Definition column_numbers (rows : list (list value)) (colIndex : nat)
  : list float :=
  map number_of
    (List.filter is_numeric (map (fun row => cell_at row colIndex) rows)).

Definition metric (values : list float) (type : string) : string :=
  match values with
  | [] => ""
  | _ =>
      if String.eqb type "sum" then
        JsNumber.toFixed2 (JsNumber.sum values)
      else if String.eqb type "avg" then
        JsNumber.toFixed2
          (PrimFloat.div (JsNumber.sum values)
                         (JsNumber.of_nat (length values)))
      else if String.eqb type "max" then
        JsNumber.toFixed2 (JsNumber.Math_max values)
      else if String.eqb type "min" then
        JsNumber.toFixed2 (JsNumber.Math_min values)
      else ""
  end.

(** [calculateMetric(colIndex, type)].  The first loop reads
    [row[colIndex]] of every element of [filteredData]: on an element
    that is [undefined] this is a TypeError, written [None]. *)
Definition calculateMetric (t : Table) (colIndex : nat) (type : string)
           (σ : store) : option string :=
  match rows_of σ (filteredData t) with
  | Some rows =>
      Some (metric (column_numbers (map (row_at σ) rows) colIndex) type)
  | None => None
  end.

(** ** [Array.prototype.sort] *)

(** A stable sort by a comparator: [b] is moved before [a] only when the
    comparator finds [a] greater than [b].  For a consistent comparator
    this is the order ECMA-262 prescribes. *)
Fixpoint insert_sorted {A} (cmp : A -> A -> comparison) (x : A)
         (l : list A) : list A :=
  match l with
  | [] => [x]
  | y :: rest =>
      match cmp x y with
      | Gt => y :: insert_sorted cmp x rest
      | _ => x :: l
      end
  end.

Definition sort {A} (cmp : A -> A -> comparison) (l : list A) : list A :=
  foldr (insert_sorted cmp) [] l.

Section WithHost.
Variable host : Host.

(** ** [sortByColumn] *)

(** The comparator given to [sort], on the cells of two rows. *)
Definition compareFn (newDirection : Direction) (col : nat)
           (a b : list value) : comparison :=
  let valA := cell_at a col in
  let valB := cell_at b col in
  match valA, valB with
  | VNum x, VNum y =>
      JsNumber.sign_of
        (match newDirection with
         | Asc => PrimFloat.sub x y
         | Desc => PrimFloat.sub y x
         end)
  | _, _ =>
      Z.compare
        (match newDirection with
         | Asc => localeCompare host (ToString host valA) (ToString host valB)
         | Desc => localeCompare host (ToString host valB) (ToString host valA)
         end) 0
  end.

Definition next_direction (st : SortState) (col : nat) : option Direction :=
  if decide (colIndex st = Some col /\ direction st = Some Asc) then Some Desc
  else if decide (colIndex st = Some col /\ direction st = Some Desc) then None
  else Some Asc.

(** The comparator on two elements of [displayData]. *)
Definition compare_rows (d : Direction) (col : nat) (σ : store)
           (a b : loc) : comparison :=
  compareFn d col (row_at σ a) (row_at σ b).

(** The branch on [newDirection]: a copy of [processedData] becomes the
    new [displayData], or [displayData] is sorted in place. *)
Definition sorted_display (newDirection : option Direction) (col : nat)
           (t : Table) (σ : store) : loc * store :=
  match newDirection with
  | None => copy_array (processedData t) σ
  | Some d =>
      (displayData t,
       <[displayData t :=
           OArray (sort (compare_rows d col σ)
                        (rows_at σ (displayData t)))]> σ)
  end.

(** The field updates of [sortByColumn(colIndex)].  The call of
    [refreshTableBody] that ends the method comes after them: it writes
    the table body from [displayData], assigns no field, and ends in a
    TypeError, [updateRowCount] not being defined; the fields keep what
    was assigned. *)
Definition sortByColumn (col : nat) (t : Table) (σ : store) : Table * store :=
  let newDirection := next_direction (sortState t) col in
  let st' :=
    {| colIndex := match newDirection with Some _ => Some col | None => None end;
       direction := newDirection |} in
  let '(display', σ1) := sorted_display newDirection col t σ in
  let '(filtered', σ2) := copy_array display' σ1 in
  ({| config := config t; sortState := st';
      processedData := processedData t;
      processedHeadings := processedHeadings t;
      filteredData := filtered'; displayData := display' |}, σ2).

(** ** [filterTable]

    The function reads the document: [inputs] are the values of the
    filter inputs of the header, and [body] gives, for every [tr] of the
    table body in document order, the [textContent] of its cells.  The
    body is what the browser made of the markup last written by
    [generateHTML] or [refreshTableBody], one [tr] per row of
    [displayData] unless the text of a cell itself holds markup of
    rows. *)

(** [(row.cells[i]?.textContent || '').toLowerCase()]. *)
Definition cell_text (row : list string) (i : nat) : string :=
  JsString.toLowerCase
    (match row !! i with
     | Some text => text
     | None => ""
     end).

(** The body of [inputs.forEach]: does the filter of column [i] accept
    the row? *)
Definition input_accepts (row : list string) (i : nat)
           (input : string) : bool :=
  let filter := JsString.toLowerCase (JsString.trim input) in
  if String.eqb filter "" then true
  else JsString.includes (cell_text row i) filter.

Definition visible (inputs : list string) (row : list string) : bool :=
  forallb (fun ok : bool => ok) (imap (input_accepts row) inputs).

(** The indexes pushed by [rows.forEach]. *)
Definition visibleRowIndexes (inputs : list string)
           (body : list (list string)) : list nat :=
  List.filter
    (fun index =>
       match body !! index with
       | Some row => visible inputs row
       | None => false
       end)
    (seq 0 (length body)).

(** The field update of [filterTable]:
    [visibleRowIndexes.map((index) => this.displayData[index])]. *)
Definition filterTable (inputs : list string) (body : list (list string))
           (t : Table) (σ : store) : Table * store :=
  let entries :=
    map (fun index => element σ (displayData t) index)
        (visibleRowIndexes inputs body) in
  let '(filtered', σ') := alloc (array_of entries) σ in
  ({| config := config t; sortState := sortState t;
      processedData := processedData t;
      processedHeadings := processedHeadings t;
      filteredData := filtered'; displayData := displayData t |}, σ').

(** ** [init] and the constructor *)

(** The field updates of [init()]. *)
Definition init (t : Table) (σ : store) : Table * store :=
  let '((hs, projected), σ1) :=
    hideColumns (config t) (config_headings (config t))
                (config_data (config t)) σ in
  let '(finalData, σ2) :=
    applyModifications (config t) projected hs σ1 in
  let '(filtered', σ3) := copy_array finalData σ2 in
  let '(display', σ4) := copy_array finalData σ3 in
  ({| config := config t; sortState := sortState t;
      processedData := finalData;
      processedHeadings := hs;
      filteredData := filtered'; displayData := display' |}, σ4).

(** [new TableLibrary(config)]. *)
Definition construct (c : Config) (σ : store) : Table * store :=
  let '(processed0, σ1) := alloc (OArray []) σ in
  let '(filtered0, σ2) := alloc (OArray []) σ1 in
  let '(display0, σ3) := alloc (OArray []) σ2 in
  init {| config := c;
          sortState := {| colIndex := None; direction := None |};
          processedData := processed0;
          processedHeadings := [];
          filteredData := filtered0; displayData := display0 |} σ3.

(** ** The public readers *)

Definition getData (t : Table) : loc := config_data (config t).

Definition getFilteredData (t : Table) : loc := filteredData t.

(** ** [downloadAsCSV] *)

Definition quoted (s : string) : string :=
  String JsString.dquote s +:+ String JsString.dquote "".

(** The callback of [row.map] in [downloadAsCSV]. *)
Definition csv_cell (cell : value) : string :=
  let cellValue := Cell.getCellTextContent host cell in
  let stringValue := JsString.double_quotes (ToString host cellValue) in
  quoted stringValue.

(** The text handed to the [Blob] by [downloadAsCSV(filename,
    includeHeaders)]. *)
Definition csvContent (headers : list string) (rows : list (list value))
           (includeHeaders : bool) : string :=
  let csv0 :=
    if includeHeaders
    then JsString.join "," (map quoted headers) +:+ nl
    else "" in
  fold_left
    (fun csv row => csv +:+ (JsString.join "," (map csv_cell row) +:+ nl))
    rows csv0.

(** [downloadAsCSV(filename, includeHeaders)]: the text handed to the
    [Blob].  [row.map] on an element of [filteredData] that is
    [undefined] is a TypeError, written [None]. *)
Definition downloadAsCSV (t : Table) (includeHeaders : bool)
           (σ : store) : option string :=
  match rows_of σ (filteredData t) with
  | Some rows =>
      Some (csvContent (processedHeadings t) (map (row_at σ) rows)
                       includeHeaders)
  | None => None
  end.

(** ** Runs of user actions *)

(** A sort request for a column, or a run of [filterTable] with what
    the document holds at that time. *)
Inductive action :=
| Sort (col : nat)
| Filter (inputs : list string) (body : list (list string)).

Definition step (a : action) (s : Table * store) : Table * store :=
  match a with
  | Sort col => sortByColumn col s.1 s.2
  | Filter inputs body => filterTable inputs body s.1 s.2
  end.

Definition run (actions : list action) (s : Table * store) : Table * store :=
  fold_left (fun s a => step a s) actions s.

End WithHost.

End TableLibrary.

(* ===================================================================== *)
(** * Definitions used to state the properties *)
(* ===================================================================== *)

Module Spec.
Import JsValue Store TableLibrary.

(** ** The sort cycle, from the transition table of the specification *)

Definition inactive : SortState := {| colIndex := None; direction := None |}.

Definition active (col : nat) (d : Direction) : SortState :=
  {| colIndex := Some col; direction := Some d |}.

(** A sort state of the transition table: both fields are none, or both
    are set. *)
Definition in_table (st : SortState) : Prop :=
  st = inactive \/ exists col d, st = active col d.

(** ** Numbers with exactly two decimal places *)

(** Every character is a decimal digit. *)
Definition all_digits (s : string) : Prop :=
  forall c, In c (list_ascii_of_string s) -> JsString.is_digit c = true.

(** Digits, a point, two digits. *)
Fixpoint fixed_form (seen_digit : bool) (s : string) : bool :=
  match s with
  | "" => false
  | String c rest =>
      if JsString.is_digit c then fixed_form true rest
      else if Ascii.eqb c "." then
        seen_digit &&
        match rest with
        | String d1 (String d2 "") =>
            JsString.is_digit d1 && JsString.is_digit d2
        | _ => false
        end
      else false
  end.

(** An optional minus sign, at least one digit, a point, two digits. *)
Definition two_decimals (s : string) : bool :=
  fixed_form false s
  || match s with
     | String c rest => Ascii.eqb c "-" && fixed_form false rest
     | "" => false
     end.

(** The float is finite and its magnitude is below [10^21]: the range in
    which [toFixed] writes fixed-point digits. *)
Definition fixed_range (x : float) : bool :=
  match Prim2SF x with
  | S754_finite _ m e => negb (JsNumber.at_least_1e21 (Z.pos m) e)
  | S754_zero _ => true
  | _ => false
  end.

(** ** Aggregation *)

(** The aggregate of the numbers of a column, in the words of the
    specification; the arithmetic is that of JavaScript numbers. *)
Definition aggregate (values : list float) (type : string) : option float :=
  if String.eqb type "sum" then Some (JsNumber.sum values)
  else if String.eqb type "avg" then
    Some (PrimFloat.div (JsNumber.sum values)
                        (JsNumber.of_nat (length values)))
  else if String.eqb type "max" then Some (JsNumber.Math_max values)
  else if String.eqb type "min" then Some (JsNumber.Math_min values)
  else None.

(** The number a row contributes to the aggregation of a column: its
    cell when it is a number other than NaN. *)
Definition numeric_cell (row : list value) (col : nat) : option float :=
  match row !! col with
  | Some (VNum x) => if JsNumber.isNaN x then None else Some x
  | _ => None
  end.

(** ** Modification rules *)

(** The outcome of the rule found under a key, if there is one, on a
    cell. *)
Definition applied (r : option rule) (cell : value) (row : list value)
           (rowIndex colIndex : nat) : option outcome :=
  match r with
  | Some f => Some (f cell row rowIndex colIndex)
  | None => None
  end.

(** ** Column hiding *)

(** The resolved hide specifiers as a set: the distinct indices. *)
Definition resolved (hs : list string) (hc : hide_config) : list Z :=
  remove_dups (hideIndexes hs hc).

(** The resolved indices that are positions of the headings. *)
Definition resolved_columns (hs : list string) (hc : hide_config) : list Z :=
  List.filter (fun i => i <? Z.of_nat (length hs)) (resolved hs hc).

(** ** CSV, following the words of the specification

    These definitions are written from the text of the specification.
    They share no string function with the embedding of
    [downloadAsCSV]: the doubling of quotes, the wrapping and the joining
    are defined here once more, in another way.  The text of a cell is
    its export text, which is the matter of the cell classification. *)

(** A double quote, as a string, and the newline that ends a row. *)
Definition dq : string := String (ascii_of_nat 34) "".

Definition newline : string := String (ascii_of_nat 10) "".

Fixpoint concat_lines (lines : list string) : string :=
  match lines with
  | [] => ""
  | l :: rest => l +:+ concat_lines rest
  end.

(** Embedded quote characters escaped by doubling them: every character
    is written once, and a double quote once more. *)
Definition escaped_char (c : ascii) : list ascii :=
  if decide (nat_of_ascii c = 34%nat) then [c; c] else [c].

Definition escaped (text : string) : string :=
  string_of_list_ascii (flat_map escaped_char (list_ascii_of_string text)).

(** The whole field wrapped in quotes. *)
Definition wrapped (field : string) : string := dq +:+ field +:+ dq.

(** Fields joined with commas: a comma before every field but the
    first. *)
Definition comma_joined (fields : list string) : string :=
  match fields with
  | [] => ""
  | first :: others =>
      first +:+ concat_lines (map (fun field => "," +:+ field) others)
  end.

Section WithHost.
Variable host : Host.

(** Each heading individually quoted. *)
Definition header_row (hs : list string) : string :=
  comma_joined (map wrapped hs).

(** Each cell's export text, escaped and wrapped, the fields joined with
    commas. *)
Definition data_row (row : list value) : string :=
  comma_joined
    (map (fun cell => wrapped (escaped (Cell.exportText host cell))) row).

(** The header row if it is included, then the data rows, each row ended
    by a single newline. *)
Definition csv_of_spec (hs : list string) (rows : list (list value))
           (includeHeaders : bool) : string :=
  (if includeHeaders then header_row hs +:+ newline else "")
  +:+ concat_lines (map (fun row => data_row row +:+ newline) rows).

End WithHost.

(** ** The view state

    What holds of a table and its store after initialization on the store
    [σ0] with the configuration [c], and after every action: [p] is the
    array [processedData] and [rows0] the order of its rows. *)
Record view_ok (σ0 : store) (c : Config) (p : loc) (rows0 : list loc)
       (s : Table * store) : Prop := {
  ok_config : config s.1 = c;
  ok_frame : σ0 ⊆ s.2;
  ok_processed : processedData s.1 = p;
  ok_processed_rows : rows_at s.2 p = rows0;
  ok_processed_alloc : p ∈ dom s.2;
  ok_processed_new : p ∉ dom σ0;
  ok_display_alloc : displayData s.1 ∈ dom s.2;
  ok_display_new : displayData s.1 ∉ dom σ0;
  ok_display_ne : displayData s.1 ≠ p;
  ok_filtered_new : filteredData s.1 ∉ dom σ0;
  ok_perm : rows_at s.2 (displayData s.1) ≡ₚ rows0;
  ok_sub : defined_rows s.2 (filteredData s.1)
             `sublist_of` rows_at s.2 (displayData s.1);
  ok_sort : in_table (sortState s.1);
  ok_display_array : is_array s.2 (displayData s.1) = true;
  ok_processed_array : is_array s.2 p = true
}.

(** The table body a filter action read has at most [n] rows. *)
Definition body_fits (n : nat) (a : action) : bool :=
  match a with
  | Sort _ => true
  | Filter _ body => (length body <=? n)%nat
  end.

(** The raw data is in the store: [config.data] is an array of rows. *)
Definition is_row (σ : store) (l : loc) : bool :=
  match σ !! l with Some (ORow _) => true | _ => false end.

Definition raw_data_ok (σ : store) (c : Config) : bool :=
  match σ !! config_data c with
  | Some (OArray rows) => forallb (is_row σ) rows
  | _ => false
  end.

(** ** A host for closed examples

    Collation by character codes; dates are written as their time value
    in decimal. *)
Definition code_order_host : Host :=
  {| localeCompare := fun a b =>
       match String.compare a b with Lt => -1 | Eq => 0 | Gt => 1 end;
     dateTimeFormat := fun _ t => pretty t;
     dateToString := fun t => pretty t;
     dateToISOString := fun t => pretty t |}.

(** ** A sample table: two rows under the headings Name and Age, and a
    heading rule that adds one to the ages. *)
Definition sample_store : store :=
  <[3%positive := OArray [1%positive; 2%positive]]>
    (<[2%positive := ORow [VStr "Al"; VNum 25]]>
       (<[1%positive := ORow [VStr "Bob"; VNum 30]]> ∅)).

Definition add_one : rule :=
  fun cell _ _ _ =>
    match cell with
    | VNum x => Returns (VNum (x + 1))
    | _ => Throws
    end.

Definition sample_config : Config :=
  {| config_headings := ["Name"; "Age"];
     config_data := 3%positive;
     config_hideColumns := HideMany [];
     config_modifyConfig := Some {[ "Age" := add_one ]} |}.

(** A one-cell table under the heading H, with a heading rule that
    returns a value and a coordinate rule that throws. *)
Definition returns_b : rule := fun _ _ _ _ => Returns (VStr "b").

Definition throws : rule := fun _ _ _ _ => Throws.

Definition one_cell_store : store :=
  <[2%positive := OArray [1%positive]]> (<[1%positive := ORow [VStr "a"]]> ∅).

Definition one_cell_rules : gmap string rule :=
  <["0,0" := throws]> {[ "H" := returns_b ]}.

Definition one_cell_config : Config :=
  {| config_headings := ["H"];
     config_data := 2%positive;
     config_hideColumns := HideMany [];
     config_modifyConfig := Some one_cell_rules |}.

(** Two columns, and the request to hide the column of index 5. *)
Definition two_column_store : store :=
  <[2%positive := OArray [1%positive]]>
    (<[1%positive := ORow [VStr "x"; VStr "y"]]> ∅).

Definition hide_fifth_config : Config :=
  {| config_headings := ["A"; "B"];
     config_data := 2%positive;
     config_hideColumns := HideMany [HideIndex 5];
     config_modifyConfig := None |}.

(** The same two columns, the first one hidden twice: by its label and by
    its index. *)
Definition hide_twice_config : Config :=
  {| config_headings := ["A"; "B"];
     config_data := 2%positive;
     config_hideColumns := HideMany [HideLabel "A"; HideIndex 0];
     config_modifyConfig := None |}.

(** A table whose one filtered row holds the numbers Infinity and 10^21. *)
Definition infinity_table : Table * store :=
  ({| config := sample_config;
      sortState := inactive;
      processedData := 2%positive;
      processedHeadings := ["Total"; "Count"];
      filteredData := 2%positive;
      displayData := 2%positive |},
   <[2%positive := OArray [1%positive]]>
     (<[1%positive := ORow [VNum PrimFloat.infinity; VNum 1e21]]> ∅)).

End Spec.

(* ===================================================================== *)
(** * Further methods of the table *)
(* ===================================================================== *)

Module TableMethods.
Import JsValue Store TableLibrary.

(** [isNumericColumn(colIndex)]: some row of [processedData] has a number
    other than NaN in the column. *)
Definition isNumericColumn (t : Table) (colIndex : nat) (σ : store) : bool :=
  existsb (fun row => is_numeric (cell_at row colIndex))
          (table_at σ (processedData t)).

(** The assignment [this.config.data = newData]. *)
Definition set_data (newData : loc) (t : Table) : Table :=
  {| config :=
       {| config_headings := config_headings (config t);
          config_data := newData;
          config_hideColumns := config_hideColumns (config t);
          config_modifyConfig := config_modifyConfig (config t) |};
     sortState := sortState t;
     processedData := processedData t;
     processedHeadings := processedHeadings t;
     filteredData := filteredData t;
     displayData := displayData t |}.

(** [updateData(newData)]. *)
Definition updateData (newData : loc) (t : Table) (σ : store) : Table * store :=
  init (set_data newData t) σ.

(** [this.processedData[rowIndex]], [None] when that is undefined: the
    row that the click handler of an action button and the change handler
    of a check box hand to the user function, and the row
    [getCheckedRows] reports.  The index is the [data-row-index]
    attribute of the control, which is the position of its row in the
    array the table body was last written from. *)
Definition rowData (rowIndex : nat) (t : Table) (σ : store) : option loc :=
  element σ (processedData t) rowIndex.

(** [getCheckedRows()].  The argument lists, in document order, the
    [data-row-index] attributes of the check boxes that are checked. *)
Definition getCheckedRows (checked : list nat) (t : Table) (σ : store)
  : list (nat * option loc) :=
  map (fun rowIndex => (rowIndex, rowData rowIndex t σ)) checked.

End TableMethods.

(* ===================================================================== *)
(** * Definitions used to state the further properties *)
(* ===================================================================== *)

Module Props.
Import JsValue Store TableLibrary Spec.

(** ** Comparators *)

(** [b] may stay after [a]: the comparator does not ask for [b] first. *)
Definition in_order {A} (cmp : A -> A -> comparison) (a b : A) : bool :=
  match cmp a b with Gt => false | _ => true end.

(** A comparator is consistent on a list when, on its elements, it never
    asks for each of two elements before the other, and [in_order] is
    transitive. *)
Definition consistent_on {A} (cmp : A -> A -> comparison) (l : list A) : bool :=
  forallb (fun a =>
    forallb (fun b =>
      (in_order cmp a b || in_order cmp b a)
      && forallb (fun c =>
           implb (in_order cmp a b && in_order cmp b c) (in_order cmp a c)) l)
      l) l.

(** Every element is in order with all the elements after it. *)
Fixpoint ordered {A} (cmp : A -> A -> comparison) (l : list A) : bool :=
  match l with
  | [] => true
  | a :: rest => forallb (in_order cmp a) rest && ordered cmp rest
  end.

(** ** The pipeline of [init] *)

(** The positions [hideColumns] keeps. *)
Definition kept_position (c : Config) (i : nat) : bool :=
  negb (includes (hideIndexes (config_headings c) (config_hideColumns c)) i).

(** The raw rows after projection and modification. *)
Definition pipeline (c : Config) (raw : list (list value))
  : list (list value) :=
  let hs := filter_index (kept_position c) (config_headings c) in
  let projected := map (filter_index (kept_position c)) raw in
  match config_modifyConfig c with
  | None => projected
  | Some mc => imap (modify_row mc hs) projected
  end.

(** ** The view state *)

(** What holds of every state besides [view_ok]: the display array is an
    array, the cells of the rows are those of [cells], and while no sort
    is active the display array holds the rows in the order of
    [processedData]. *)
Record view_more (cells : loc -> list value) (s : Table * store) : Prop := {
  more_array : is_array s.2 (displayData s.1) = true;
  more_cells : forall r, row_at s.2 r = cells r;
  more_order : sortState s.1 = inactive ->
               rows_at s.2 (displayData s.1) = rows_at s.2 (processedData s.1)
}.

(** ** Filter inputs *)

(** The text a filter input searches for. *)
Definition needle (input : string) : string :=
  JsString.toLowerCase (JsString.trim input).

(** Input by input, the needle of the first list occurs in the needle of
    the second. *)
Fixpoint narrows (inputs1 inputs2 : list string) : bool :=
  match inputs1, inputs2 with
  | [], [] => true
  | a :: rest1, b :: rest2 =>
      JsString.includes (needle b) (needle a) && narrows rest1 rest2
  | _, _ => false
  end.

(** An input that filters nothing. *)
Definition blank (input : string) : bool := String.eqb (needle input) "".

(** ** Reading CSV

    A reader of comma-separated lines whose fields are all enclosed in
    double quotes, a double quote inside a field being written twice
    (RFC 4180).  It answers the rows of fields, or [None] for a text that
    is not of this form. *)
Inductive read_state :=
| LineStart
| FieldStart
| InField
| AfterQuote.

Definition snoc_char (s : string) (c : ascii) : string := s +:+ String c "".

Fixpoint read_csv (st : read_state) (field : string) (row : list string)
         (rows : list (list string)) (s : string)
  : option (list (list string)) :=
  match s with
  | "" =>
      match st with
      | LineStart => Some rows
      | _ => None
      end
  | String c rest =>
      match st with
      | LineStart =>
          if Ascii.eqb c JsString.dquote then read_csv InField "" [] rows rest
          else if Ascii.eqb c (ascii_of_nat 10)
               then read_csv LineStart "" [] (rows ++ [[]])%list rest
          else None
      | FieldStart =>
          if Ascii.eqb c JsString.dquote then read_csv InField "" row rows rest
          else None
      | InField =>
          if Ascii.eqb c JsString.dquote then read_csv AfterQuote field row rows rest
          else read_csv InField (snoc_char field c) row rows rest
      | AfterQuote =>
          if Ascii.eqb c JsString.dquote
          then read_csv InField (snoc_char field c) row rows rest
          else if Ascii.eqb c ","
               then read_csv FieldStart "" (row ++ [field])%list rows rest
          else if Ascii.eqb c (ascii_of_nat 10)
               then read_csv LineStart "" [] (rows ++ [(row ++ [field])%list])%list rest
          else None
      end
  end.

Definition read (s : string) : option (list (list string)) :=
  read_csv LineStart "" [] [] s.

(** The text of a field as [csv_cell] writes it, and the rest of a line
    after a field: the remaining fields, each after a comma, and the
    newline. *)
Definition enc (text : string) : string :=
  quoted (JsString.double_quotes text).

Fixpoint line_tail (texts : list string) : string :=
  match texts with
  | [] => nl
  | t :: rest => "," +:+ enc t +:+ line_tail rest
  end.

(** A line of fields, as the export writes it. *)
Definition line (texts : list string) : string :=
  JsString.join "," (map enc texts) +:+ nl.

(** No double quote occurs in the string. *)
Fixpoint quote_free (s : string) : bool :=
  match s with
  | "" => true
  | String c rest => negb (Ascii.eqb c JsString.dquote) && quote_free rest
  end.

(** ** The table body of the sample table

    The text of a cell of the table body as [generateHTML] lays it out:
    a line break and 22 blanks, the text of the markup of the cell, a
    line break and 20 blanks.  In the body written by [refreshTableBody]
    the blanks are 12 and 10. *)
Definition shown (text : string) : string :=
  Markup.br +:+ JsString.repeat_char " " 22 +:+ text
  +:+ Markup.br +:+ JsString.repeat_char " " 20.

Definition reshown (text : string) : string :=
  Markup.br +:+ JsString.repeat_char " " 12 +:+ text
  +:+ Markup.br +:+ JsString.repeat_char " " 10.

(** The body of the sample table after the constructor, and after a sort
    on the column Age. *)
Definition sample_body : list (list string) :=
  [[shown "Bob"; shown "31"]; [shown "Al"; shown "26"]].

Definition sorted_sample_body : list (list string) :=
  [[reshown "Al"; reshown "26"]; [reshown "Bob"; reshown "31"]].

(** ** A table with markup in a cell

    Two rows of one cell under the heading H.  The text of the second
    cell is markup that ends a cell and a row and opens a row with a
    cell. *)
Definition markup_text : string := "</td></tr><tr><td>q".

Definition markup_store : store :=
  <[3%positive := OArray [1%positive; 2%positive]]>
    (<[2%positive := ORow [VStr markup_text]]>
       (<[1%positive := ORow [VStr "a"]]> ∅)).

Definition markup_config : Config :=
  {| config_headings := ["H"];
     config_data := 3%positive;
     config_hideColumns := HideMany [];
     config_modifyConfig := None |}.

(** The body the browser builds from the markup [generateHTML] writes
    for this table.  [renderCell] writes the text of the second cell as
    it is, inside a [span]; there it ends the cell and the row of the
    second row, whose cell is left with the white space before the
    [span], and opens a third row, whose cell holds q and the white space
    after the [span]. *)
Definition markup_body : list (list string) :=
  [[shown "a"];
   [Markup.br +:+ JsString.repeat_char " " 22];
   ["q" +:+ Markup.br +:+ JsString.repeat_char " " 20]].

(** ** More sample tables *)

(** The two columns of [two_column_store], the first one hidden by its
    label alone. *)
Definition hide_label_config : Config :=
  {| config_headings := ["A"; "B"];
     config_data := 2%positive;
     config_hideColumns := HideOne (HideLabel "A");
     config_modifyConfig := None |}.

(** The one-cell table with a heading rule and a coordinate rule that
    both return a value. *)
Definition returns_c : rule := fun _ _ _ _ => Returns (VStr "c").

Definition both_rules : gmap string rule :=
  <["0,0" := returns_c]> {[ "H" := returns_b ]}.

Definition both_rules_config : Config :=
  {| config_headings := ["H"];
     config_data := 2%positive;
     config_hideColumns := HideMany [];
     config_modifyConfig := Some both_rules |}.

End Props.

(* ===================================================================== *)
(** * Facts about the store *)
(* ===================================================================== *)

Module StoreFacts.
Import Store.

Lemma alloc_fresh o (σ : store) : (alloc o σ).1 ∉ dom σ.
Proof. apply is_fresh. Qed.

Lemma alloc_lookup o (σ : store) : (alloc o σ).2 !! (alloc o σ).1 = Some o.
Proof. apply lookup_insert_eq. Qed.

Lemma alloc_extends o (σ : store) : σ ⊆ (alloc o σ).2.
Proof.
  apply insert_subseteq, not_elem_of_dom, (alloc_fresh o).
Qed.

Lemma alloc_dom o (σ : store) : dom (alloc o σ).2 = {[(alloc o σ).1]} ∪ dom σ.
Proof. apply dom_insert_L. Qed.

(** Objects that are present are read the same in a larger store. *)
Lemma row_at_extends (σ σ' : store) l :
  σ ⊆ σ' -> l ∈ dom σ -> row_at σ' l = row_at σ l.
Proof.
  intros Hsub [o Ho]%elem_of_dom. unfold row_at.
  by rewrite (lookup_weaken _ _ _ _ Ho Hsub), Ho.
Qed.

Lemma rows_at_extends (σ σ' : store) l :
  σ ⊆ σ' -> l ∈ dom σ -> rows_at σ' l = rows_at σ l.
Proof.
  intros Hsub [o Ho]%elem_of_dom. unfold rows_at.
  by rewrite (lookup_weaken _ _ _ _ Ho Hsub), Ho.
Qed.

Lemma dom_extends (σ σ' : store) l : σ ⊆ σ' -> l ∈ dom σ -> l ∈ dom σ'.
Proof. intros Hsub Hl. by apply (subseteq_dom _ _ Hsub). Qed.

Lemma alloc_list_cons o os (σ : store) :
  alloc_list (o :: os) σ
  = ((alloc o σ).1 :: (alloc_list os (alloc o σ).2).1,
     (alloc_list os (alloc o σ).2).2).
Proof.
  cbn [alloc_list]. destruct (alloc o σ) as [l σ1]. cbn [fst snd].
  by destruct (alloc_list os σ1).
Qed.

(** [alloc_list]: the new locations hold the given objects, in order. *)
Lemma alloc_list_spec os : forall (σ : store),
  σ ⊆ (alloc_list os σ).2
  /\ Forall2 (fun l o => (alloc_list os σ).2 !! l = Some o) (alloc_list os σ).1 os
  /\ Forall (fun l => l ∉ dom σ) (alloc_list os σ).1.
Proof.
  induction os as [|o os IH]; intros σ.
  - split; [done|]. split; constructor.
  - rewrite alloc_list_cons. cbn [fst snd].
    destruct (IH (alloc o σ).2) as (Hsub & Hall & Hfresh).
    pose proof (alloc_extends o σ) as He.
    split; [by trans (alloc o σ).2|]. split.
    + constructor; [|done].
      eapply lookup_weaken; [apply alloc_lookup|done].
    + constructor; [apply alloc_fresh|].
      eapply Forall_impl; [exact Hfresh|]. intros x Hx Hin. apply Hx.
      by eapply dom_extends.
Qed.

Lemma map_rows_eq f d (σ : store) :
  map_rows f d σ
  = alloc (OArray (alloc_list (new_rows f d σ) σ).1)
          (alloc_list (new_rows f d σ) σ).2.
Proof.
  unfold map_rows, new_rows. by destruct (alloc_list _ σ).
Qed.

Lemma map_rows_extends f d (σ : store) : σ ⊆ (map_rows f d σ).2.
Proof.
  rewrite map_rows_eq.
  destruct (alloc_list_spec (new_rows f d σ) σ) as (Hs & _).
  etrans; [exact Hs|]. apply alloc_extends.
Qed.

Lemma map_rows_fresh f d (σ : store) : (map_rows f d σ).1 ∉ dom σ.
Proof.
  rewrite map_rows_eq.
  destruct (alloc_list_spec (new_rows f d σ) σ) as (Hs & _).
  intros Hin. eapply alloc_fresh. by eapply dom_extends.
Qed.

Lemma map_rows_allocated f d (σ : store) :
  (map_rows f d σ).1 ∈ dom (map_rows f d σ).2.
Proof.
  rewrite map_rows_eq. apply elem_of_dom. eexists. apply alloc_lookup.
Qed.

Lemma map_rows_is_array f d (σ : store) :
  is_array (map_rows f d σ).2 (map_rows f d σ).1 = true.
Proof. rewrite map_rows_eq. unfold is_array. by rewrite alloc_lookup. Qed.

(** Reading back the result of [map_rows]: the callback applied to every
    row of the input, in order. *)
Lemma map_rows_table f d (σ : store) :
  table_at (map_rows f d σ).2 (map_rows f d σ).1 = imap f (table_at σ d).
Proof.
  rewrite map_rows_eq.
  destruct (alloc_list_spec (new_rows f d σ) σ) as (Hs & Hall & Hfr).
  set (ls := (alloc_list (new_rows f d σ) σ).1) in *.
  set (σ1 := (alloc_list (new_rows f d σ) σ).2) in *.
  unfold table_at at 1. unfold rows_at at 1. rewrite alloc_lookup.
  unfold table_at. rewrite imap_fmap.
  apply list_eq. intros i.
  rewrite list_lookup_fmap, list_lookup_imap.
  destruct (rows_at σ d !! i) as [r|] eqn:Hr; simpl.
  - destruct (Forall2_lookup_r _ _ _ i (ORow (f i (row_at σ r))) Hall)
      as (l & Hli & Hlo).
    { unfold new_rows. by rewrite list_lookup_imap, Hr. }
    rewrite Hli. simpl. f_equal. unfold row_at at 1.
    pose proof (lookup_weaken _ _ _ _ Hlo (alloc_extends (OArray ls) σ1)) as Hx.
    unfold alloc in *. cbn [snd] in *. by rewrite Hx.
  - assert (length ls = length (rows_at σ d)) as Hlen.
    { rewrite (Forall2_length _ _ _ Hall). unfold new_rows.
      by rewrite length_imap. }
    rewrite (proj2 (lookup_ge_None ls i)); [done|].
    rewrite Hlen. by apply lookup_ge_None.
Qed.

Lemma copy_array_rows d (σ : store) :
  rows_at (copy_array d σ).2 (copy_array d σ).1 = rows_at σ d.
Proof. unfold copy_array, rows_at at 1. by rewrite alloc_lookup. Qed.

Lemma copy_array_fresh d (σ : store) : (copy_array d σ).1 ∉ dom σ.
Proof. apply alloc_fresh. Qed.

Lemma copy_array_extends d (σ : store) : σ ⊆ (copy_array d σ).2.
Proof. apply alloc_extends. Qed.

Lemma copy_array_allocated d (σ : store) :
  (copy_array d σ).1 ∈ dom (copy_array d σ).2.
Proof. apply elem_of_dom. eexists. apply alloc_lookup. Qed.

Lemma copy_array_is_array d (σ : store) :
  is_array (copy_array d σ).2 (copy_array d σ).1 = true.
Proof. unfold is_array, copy_array. by rewrite alloc_lookup. Qed.

Lemma is_array_extends (σ σ' : store) l :
  σ ⊆ σ' -> is_array σ l = true -> is_array σ' l = true.
Proof.
  unfold is_array. intros Hsub H.
  destruct (σ !! l) as [[]|] eqn:E; try done.
  by rewrite (lookup_weaken _ _ _ _ E Hsub).
Qed.

Lemma is_array_dom (σ : store) l : is_array σ l = true -> l ∈ dom σ.
Proof.
  unfold is_array. intros H. apply elem_of_dom.
  destruct (σ !! l); [eauto|done].
Qed.

(** In an array of rows an element is the row at its index. *)
Lemma element_array (σ : store) l index :
  is_array σ l = true -> element σ l index = rows_at σ l !! index.
Proof.
  unfold is_array, element, entries_at, rows_at.
  destruct (σ !! l) as [[cells|rows|entries]|]; try done. intros _.
  rewrite list_lookup_fmap. by destruct (rows !! index).
Qed.

Lemma omap_id_Some (rows : list loc) : omap id (map Some rows) = rows.
Proof. induction rows as [|r rows IH]; [done|]. cbn. by rewrite IH. Qed.

Lemma all_defined_Some (rows : list loc) :
  all_defined (map Some rows) = Some rows.
Proof. induction rows as [|r rows IH]; [done|]. cbn. by rewrite IH. Qed.

Lemma all_defined_spec (entries : list (option loc)) rows :
  all_defined entries = Some rows -> entries = map Some rows.
Proof.
  revert rows. induction entries as [|[r|] entries IH]; intros rows H.
  - by injection H as <-.
  - cbn in H. destruct (all_defined entries) as [rest|]; [|done].
    injection H as <-. cbn. by rewrite (IH rest).
  - done.
Qed.

(** The elements of the array object built from a list of elements. *)
Lemma array_of_entries entries (σ : store) :
  entries_at (alloc (array_of entries) σ).2 (alloc (array_of entries) σ).1
  = entries.
Proof.
  unfold entries_at. rewrite alloc_lookup. unfold array_of.
  destruct (all_defined entries) as [rows|] eqn:E; [|done].
  symmetry. by apply all_defined_spec.
Qed.

Lemma rows_of_defined (σ : store) l rows :
  rows_of σ l = Some rows -> defined_rows σ l = rows.
Proof.
  unfold rows_of, defined_rows. intros H%all_defined_spec. rewrite H.
  apply omap_id_Some.
Qed.

Lemma rows_of_array (σ : store) l :
  is_array σ l = true -> rows_of σ l = Some (rows_at σ l).
Proof.
  unfold is_array, rows_of, entries_at, rows_at.
  destruct (σ !! l) as [[cells|rows|entries]|]; try done. intros _.
  apply all_defined_Some.
Qed.

Lemma entries_at_array (σ : store) l rows :
  σ !! l = Some (OArray rows) -> entries_at σ l = map Some rows.
Proof. unfold entries_at. by intros ->. Qed.

Lemma defined_rows_array (σ : store) l rows :
  σ !! l = Some (OArray rows) -> defined_rows σ l = rows.
Proof.
  intros H. unfold defined_rows. rewrite (entries_at_array _ _ _ H).
  apply omap_id_Some.
Qed.

Lemma entries_at_extends (σ σ' : store) l :
  σ ⊆ σ' -> l ∈ dom σ -> entries_at σ' l = entries_at σ l.
Proof.
  intros Hsub [o Ho]%elem_of_dom. unfold entries_at.
  by rewrite (lookup_weaken _ _ _ _ Ho Hsub), Ho.
Qed.

Lemma defined_rows_extends (σ σ' : store) l :
  σ ⊆ σ' -> l ∈ dom σ -> defined_rows σ' l = defined_rows σ l.
Proof.
  intros Hsub Hl. unfold defined_rows. by rewrite (entries_at_extends σ σ').
Qed.

Lemma copy_array_entries d (σ : store) :
  entries_at (copy_array d σ).2 (copy_array d σ).1 = map Some (rows_at σ d).
Proof. unfold copy_array. apply entries_at_array. apply alloc_lookup. Qed.

Lemma copy_array_defined d (σ : store) :
  defined_rows (copy_array d σ).2 (copy_array d σ).1 = rows_at σ d.
Proof. unfold copy_array. apply defined_rows_array. apply alloc_lookup. Qed.

Lemma copy_array_rows_of d (σ : store) :
  rows_of (copy_array d σ).2 (copy_array d σ).1 = Some (rows_at σ d).
Proof. unfold rows_of. rewrite copy_array_entries. apply all_defined_Some. Qed.

End StoreFacts.

(* ===================================================================== *)
(** * Facts about sorting and filtering lists *)
(* ===================================================================== *)

Module ListFacts.
Import TableLibrary.

Lemma insert_sorted_perm {A} (cmp : A -> A -> comparison) x l :
  insert_sorted cmp x l ≡ₚ x :: l.
Proof.
  induction l as [|y l IH]; simpl; [done|].
  destruct (cmp x y); try done.
  rewrite IH. apply Permutation_swap.
Qed.

Lemma sort_perm {A} (cmp : A -> A -> comparison) l : sort cmp l ≡ₚ l.
Proof.
  induction l as [|x l IH]; simpl; [done|].
  by rewrite insert_sorted_perm, IH.
Qed.

Lemma filter_sublist {A} (P : A -> bool) l : List.filter P l `sublist_of` l.
Proof.
  induction l as [|x l IH]; simpl; [constructor|].
  destruct (P x); by constructor.
Qed.

Lemma omap_sublist {A B} (f : A -> option B) (l1 l2 : list A) :
  l1 `sublist_of` l2 -> omap f l1 `sublist_of` omap f l2.
Proof.
  induction 1 as [|x l1 l2 _ IH|x l1 l2 _ IH]; simpl.
  - constructor.
  - destruct (f x); [by constructor|done].
  - destruct (f x); [by constructor|done].
Qed.

Lemma map_sublist {A B} (f : A -> B) (l1 l2 : list A) :
  l1 `sublist_of` l2 -> map f l1 `sublist_of` map f l2.
Proof. induction 1; cbn [map]; by constructor. Qed.

Lemma sublist_In {A} (l1 l2 : list A) y :
  l1 `sublist_of` l2 -> In y l1 -> In y l2.
Proof.
  induction 1 as [|x l1 l2 Hs IH|x l1 l2 Hs IH]; [done| |].
  - intros [->|H]; [by left|right; by apply IH].
  - intros H. right. by apply IH.
Qed.

(** The defined ones among the values of a partial function. *)
Lemma omap_id_map {A B} (pick : A -> option B) (l : list A) :
  omap id (map pick l) = omap pick l.
Proof.
  induction l as [|x l IH]; [done|]. cbn. by rewrite IH.
Qed.

Lemma omap_pointwise {A B} (f g : A -> option B) (l : list A) :
  (forall x, f x = g x) -> omap f l = omap g l.
Proof.
  intros H. induction l as [|x l IH]; [done|].
  cbn. rewrite H. destruct (g x); [f_equal|]; exact IH.
Qed.

Lemma omap_lookup_seq {A} (l k : list A) :
  omap (fun i => (k ++ l)%list !! i) (seq (length k) (length l)) = l.
Proof.
  revert k. induction l as [|x l IH]; intros k; simpl; [done|].
  rewrite list_lookup_middle by done. f_equal.
  specialize (IH (k ++ [x])%list).
  rewrite length_app in IH. simpl in IH.
  replace (length k + 1)%nat with (S (length k)) in IH by lia.
  rewrite <- IH at 2. apply omap_pointwise.
  intros i. by rewrite <- app_assoc.
Qed.

(** Picking the elements at an increasing selection of the indices keeps
    their relative order. *)
Lemma omap_lookup_take {A} (l : list A) (n : nat) :
  omap (fun i => l !! i) (seq 0 n) = take n l.
Proof.
  induction n as [|n IH]; [done|].
  rewrite seq_S, omap_app, IH. cbn [omap list_omap plus].
  destruct (l !! n) as [x|] eqn:E.
  - by rewrite (take_S_r l n x E).
  - rewrite app_nil_r. apply lookup_ge_None in E.
    by rewrite !take_ge by lia.
Qed.

(** Rows picked at increasing indexes, in or out of range, are a
    subsequence. *)
Lemma pick_any_sublist {A} (P : nat -> bool) (l : list A) (n : nat) :
  omap (fun i => l !! i) (List.filter P (seq 0 n)) `sublist_of` l.
Proof.
  trans (take n l); [|apply sublist_take].
  rewrite <- omap_lookup_take. apply omap_sublist, filter_sublist.
Qed.

Lemma pick_sublist {A} (P : nat -> bool) (l : list A) :
  omap (fun i => l !! i) (List.filter P (seq 0 (length l))) `sublist_of` l.
Proof.
  pose proof (omap_lookup_seq l []) as H. cbn [app length] in H.
  pose proof (omap_sublist (fun i => l !! i) _ _
                (filter_sublist P (seq 0 (length l)))) as Hs.
  by rewrite H in Hs.
Qed.

End ListFacts.

(* ===================================================================== *)
(** * Facts about the view state *)
(* ===================================================================== *)

Module ViewFacts.
Import Store StoreFacts TableLibrary Spec.

Lemma hideColumns_eq c hs d (σ : store) :
  hideColumns c hs d σ
  = let keep := fun i => negb (includes (hideIndexes hs (config_hideColumns c)) i) in
    ((filter_index keep hs,
      (map_rows (fun _ row => filter_index keep row) d σ).1),
     (map_rows (fun _ row => filter_index keep row) d σ).2).
Proof. unfold hideColumns. by destruct (map_rows _ d σ). Qed.

Lemma init_eq (t : Table) (σ : store) :
  init t σ
  = let h := hideColumns (config t) (config_headings (config t))
                         (config_data (config t)) σ in
    let m := applyModifications (config t) h.1.2 h.1.1 h.2 in
    let f := copy_array m.1 m.2 in
    let d := copy_array m.1 f.2 in
    ({| config := config t; sortState := sortState t;
        processedData := m.1; processedHeadings := h.1.1;
        filteredData := f.1; displayData := d.1 |}, d.2).
Proof.
  unfold init. destruct (hideColumns _ _ _ σ) as [[hs pr] σ1]. cbn [fst snd].
  destruct (applyModifications _ pr hs σ1) as [fd σ2]. cbn [fst snd].
  destruct (copy_array fd σ2) as [f σ3]. cbn [fst snd].
  by destruct (copy_array fd σ3).
Qed.

Lemma sortByColumn_eq host col (t : Table) (σ : store) :
  sortByColumn host col t σ
  = let nd := next_direction (sortState t) col in
    let d := sorted_display host nd col t σ in
    let f := copy_array d.1 d.2 in
    ({| config := config t;
        sortState :=
          {| colIndex := match nd with Some _ => Some col | None => None end;
             direction := nd |};
        processedData := processedData t;
        processedHeadings := processedHeadings t;
        filteredData := f.1; displayData := d.1 |}, f.2).
Proof.
  unfold sortByColumn. destruct (sorted_display _ _ _ _ σ) as [d σ1].
  cbn [fst snd]. by destruct (copy_array d σ1).
Qed.

Lemma hideColumns_extends c hs d (σ : store) : σ ⊆ (hideColumns c hs d σ).2.
Proof. rewrite hideColumns_eq. apply map_rows_extends. Qed.

Lemma applyModifications_extends c d hs (σ : store) :
  σ ⊆ (applyModifications c d hs σ).2.
Proof.
  unfold applyModifications. destruct (config_modifyConfig c); [|done].
  apply map_rows_extends.
Qed.

(** The array [init] stores in [processedData] is new and allocated. *)
Lemma init_processed (t : Table) (σ : store) :
  let h := hideColumns (config t) (config_headings (config t))
                       (config_data (config t)) σ in
  let m := applyModifications (config t) h.1.2 h.1.1 h.2 in
  (m.1 ∈ dom m.2) /\ (m.1 ∉ dom σ) /\ (σ ⊆ m.2).
Proof.
  intros h m. subst h m. rewrite hideColumns_eq. cbn [fst snd].
  set (keep := fun i => negb _).
  set (pr := map_rows _ _ σ).
  assert (pr.1 ∈ dom pr.2) as Hin by apply map_rows_allocated.
  assert (pr.1 ∉ dom σ) as Hnew by apply map_rows_fresh.
  assert (σ ⊆ pr.2) as Hsub by apply map_rows_extends.
  unfold applyModifications. destruct (config_modifyConfig (config t)) as [mc|].
  - split; [apply map_rows_allocated|]. split.
    + intros Hd. eapply map_rows_fresh. eapply dom_extends; [exact Hsub|exact Hd].
    + etrans; [exact Hsub|apply map_rows_extends].
  - done.
Qed.

Lemma init_processed_array (t : Table) (σ : store) :
  let h := hideColumns (config t) (config_headings (config t))
                       (config_data (config t)) σ in
  let m := applyModifications (config t) h.1.2 h.1.1 h.2 in
  is_array m.2 m.1 = true.
Proof.
  intros h m. subst h m. rewrite hideColumns_eq. cbn [fst snd].
  unfold applyModifications. destruct (config_modifyConfig (config t)) as [mc|];
    apply map_rows_is_array.
Qed.

Lemma in_table_inactive : in_table inactive.
Proof. by left. Qed.

Lemma init_ok (t : Table) (σ0 σ : store) :
  σ0 ⊆ σ -> in_table (sortState t) ->
  view_ok σ0 (config t) (processedData (init t σ).1)
          (rows_at (init t σ).2 (processedData (init t σ).1)) (init t σ).
Proof.
  intros H0 Hst. rewrite init_eq. cbn zeta. cbn [fst snd processedData].
  destruct (init_processed t σ) as (Hin & Hnew & Hsub). cbn zeta in *.
  set (m := applyModifications _ _ _ _) in *.
  set (f := copy_array m.1 m.2).
  set (d := copy_array m.1 f.2).
  assert (m.2 ⊆ f.2) as Hmf by apply copy_array_extends.
  assert (f.2 ⊆ d.2) as Hfd by apply copy_array_extends.
  assert (m.1 ∈ dom f.2) as Hinf by (by eapply dom_extends).
  assert (m.1 ∈ dom d.2) as Hind by (by eapply dom_extends).
  assert (σ ⊆ d.2) as Hσd.
  { trans m.2; [done|]. by trans f.2. }
  assert (rows_at d.2 m.1 = rows_at m.2 m.1) as Hp.
  { rewrite (rows_at_extends f.2 d.2) by done.
    by rewrite (rows_at_extends m.2 f.2). }
  assert (rows_at d.2 d.1 = rows_at m.2 m.1) as Hd.
  { subst d. rewrite copy_array_rows. by rewrite (rows_at_extends m.2 f.2). }
  assert (defined_rows d.2 f.1 = rows_at m.2 m.1) as Hf.
  { rewrite (defined_rows_extends f.2 d.2); [|done|apply copy_array_allocated].
    subst f. by rewrite copy_array_defined. }
  constructor; cbn [fst snd config processedData displayData filteredData sortState].
  - done.
  - by trans σ.
  - done.
  - done.
  - done.
  - intros Hx. apply Hnew. by eapply dom_extends.
  - apply copy_array_allocated.
  - intros Hx. apply (copy_array_fresh m.1 f.2). fold d.
    eapply dom_extends; [|exact Hx]. trans σ; [done|]. by trans m.2.
  - intros Hx. apply (copy_array_fresh m.1 f.2). fold d. by rewrite Hx.
  - intros Hx. apply (copy_array_fresh m.1 m.2). fold f.
    eapply dom_extends; [|exact Hx]. by trans σ.
  - by rewrite Hd, Hp.
  - by rewrite Hf, Hd.
  - done.
  - apply copy_array_is_array.
  - eapply is_array_extends; [|apply (init_processed_array t σ)].
    by trans f.2.
Qed.

End ViewFacts.

Module RunFacts.
Import Store StoreFacts TableLibrary Spec ListFacts ViewFacts.

Lemma next_direction_cases (st : SortState) col :
  in_table st ->
  in_table {| colIndex := match next_direction st col with
                          | Some _ => Some col | None => None end;
              direction := next_direction st col |}.
Proof.
  intros _. destruct (next_direction st col) as [d|].
  - right. by exists col, d.
  - by left.
Qed.

Lemma next_direction_inactive col : next_direction inactive col = Some Asc.
Proof.
  unfold next_direction, inactive. cbn [colIndex direction].
  destruct (decide (None = Some col /\ None = Some Asc)) as [[E _]|_]; [done|].
  by destruct (decide (None = Some col /\ None = Some Desc)) as [[E _]|_].
Qed.

Lemma next_direction_ascending col :
  next_direction (active col Asc) col = Some Desc.
Proof.
  unfold next_direction, active. cbn [colIndex direction].
  by destruct (decide (Some col = Some col /\ Some Asc = Some Asc)) as [_|[]].
Qed.

Lemma next_direction_descending col :
  next_direction (active col Desc) col = None.
Proof.
  unfold next_direction, active. cbn [colIndex direction].
  destruct (decide (Some col = Some col /\ Some Desc = Some Asc))
    as [[_ E]|_]; [done|].
  by destruct (decide (Some col = Some col /\ Some Desc = Some Desc)) as [_|[]].
Qed.

Lemma next_direction_other other d col :
  other <> col -> next_direction (active other d) col = Some Asc.
Proof.
  intros Hne. unfold next_direction, active. cbn [colIndex direction].
  destruct (decide (Some other = Some col /\ Some d = Some Asc))
    as [[E _]|_]; [by injection E|].
  destruct (decide (Some other = Some col /\ Some d = Some Desc))
    as [[E _]|_]; [by injection E|done].
Qed.

Lemma construct_eq (c : Config) (σ : store) :
  construct c σ
  = let p := alloc (OArray []) σ in
    let f := alloc (OArray []) p.2 in
    let d := alloc (OArray []) f.2 in
    init {| config := c; sortState := inactive;
            processedData := p.1; processedHeadings := [];
            filteredData := f.1; displayData := d.1 |} d.2.
Proof.
  unfold construct. destruct (alloc _ σ) as [p σ1]. cbn [fst snd].
  destruct (alloc _ σ1) as [f σ2]. cbn [fst snd].
  by destruct (alloc _ σ2).
Qed.

Lemma construct_ok (c : Config) (σ0 : store) :
  view_ok σ0 c (processedData (construct c σ0).1)
          (rows_at (construct c σ0).2 (processedData (construct c σ0).1))
          (construct c σ0).
Proof.
  rewrite construct_eq. cbn zeta.
  set (p := alloc (OArray []) σ0).
  set (f := alloc (OArray []) p.2).
  set (d := alloc (OArray []) f.2).
  set (t := {| config := c |}).
  change c with (config t) at 1.
  apply init_ok; [|apply in_table_inactive].
  trans p.2; [apply alloc_extends|].
  trans f.2; apply alloc_extends.
Qed.

Section WithHost.
Variable host : Host.

(** Sorting keeps the view consistent. *)
Lemma sortByColumn_ok σ0 c p rows0 col (s : Table * store) :
  view_ok σ0 c p rows0 s ->
  view_ok σ0 c p rows0 (sortByColumn host col s.1 s.2).
Proof.
  intros [Hc Hfr Hp Hpr Hpa Hpn Hda Hdn Hdne Hfn Hperm Hsub Hst Harr Hparr].
  destruct s as [t σ]. cbn [fst snd] in *.
  rewrite sortByColumn_eq. cbn zeta.
  set (nd := next_direction (sortState t) col).
  set (d := sorted_display host nd col t σ).
  set (f := copy_array d.1 d.2).
  assert ((σ0 ⊆ d.2) /\ (p ∈ dom d.2) /\ (rows_at d.2 p = rows0)
          /\ (d.1 ∈ dom d.2) /\ (d.1 ∉ dom σ0) /\ (d.1 ≠ p)
          /\ (rows_at d.2 d.1 ≡ₚ rows0)) as (Hd1 & Hd2 & Hd3 & Hd4 & Hd5 & Hd6 & Hd7).
  { subst d. destruct nd as [dd|]; cbn [sorted_display fst snd].
    - split; [by apply insert_subseteq_r; [apply not_elem_of_dom|]|].
      split; [rewrite dom_insert_L; set_solver|].
      split; [unfold rows_at; by rewrite lookup_insert_ne|].
      split; [rewrite dom_insert_L; set_solver|].
      split; [done|]. split; [done|].
      unfold rows_at at 1. rewrite lookup_insert_eq.
      by rewrite sort_perm.
    - rewrite Hp.
      pose proof (copy_array_extends p σ) as He.
      pose proof (copy_array_fresh p σ) as Hf.
      split; [by trans σ|].
      split; [by eapply dom_extends|].
      split; [by rewrite (rows_at_extends σ)|].
      split; [apply copy_array_allocated|].
      split; [intros Hx; apply Hf; by eapply dom_extends|].
      split; [intros Hx; apply Hf; by rewrite Hx|].
      by rewrite copy_array_rows, Hpr. }
  pose proof (copy_array_extends d.1 d.2) as Hfe. fold f in Hfe.
  pose proof (copy_array_fresh d.1 d.2) as Hff. fold f in Hff.
  constructor;
    cbn [fst snd config processedData displayData filteredData sortState].
  - done.
  - by trans d.2.
  - done.
  - by rewrite (rows_at_extends d.2).
  - by eapply dom_extends.
  - done.
  - by eapply dom_extends.
  - done.
  - done.
  - intros Hx. apply Hff. by eapply dom_extends.
  - by rewrite (rows_at_extends d.2).
  - subst f. rewrite copy_array_defined.
    by rewrite (rows_at_extends d.2 (copy_array d.1 d.2).2).
  - by apply next_direction_cases.
  - eapply is_array_extends; [exact Hfe|]. subst d.
    destruct nd as [dd|]; cbn [sorted_display fst snd].
    + unfold is_array. by rewrite lookup_insert_eq.
    + apply copy_array_is_array.
  - eapply is_array_extends; [exact Hfe|]. subst d.
    destruct nd as [dd|]; cbn [sorted_display fst snd].
    + unfold is_array. rewrite lookup_insert_ne by done. exact Hparr.
    + rewrite Hp in *.
      eapply is_array_extends; [apply copy_array_extends|done].
Qed.

(** Filtering keeps the view consistent. *)
Lemma filterTable_ok σ0 c p rows0 inputs body (s : Table * store) :
  view_ok σ0 c p rows0 s ->
  view_ok σ0 c p rows0 (filterTable inputs body s.1 s.2).
Proof.
  intros [Hc Hfr Hp Hpr Hpa Hpn Hda Hdn Hdne Hfn Hperm Hsub Hst Harr Hparr].
  destruct s as [t σ]. cbn [fst snd] in *.
  unfold filterTable.
  set (entries := map _ _).
  pose proof (alloc_extends (array_of entries) σ) as He.
  pose proof (alloc_fresh (array_of entries) σ) as Hf.
  pose proof (array_of_entries entries σ) as Hl.
  destruct (alloc (array_of entries) σ) as [f σ'] eqn:Ha. cbn [fst snd] in *.
  constructor;
    cbn [fst snd config processedData displayData filteredData sortState].
  - done.
  - by trans σ.
  - done.
  - by rewrite (rows_at_extends σ).
  - by eapply dom_extends.
  - done.
  - by eapply dom_extends.
  - done.
  - done.
  - intros Hx. apply Hf. by eapply dom_extends.
  - by rewrite (rows_at_extends σ).
  - rewrite (rows_at_extends σ σ' (displayData t)) by done.
    unfold defined_rows. rewrite Hl. subst entries.
    rewrite omap_id_map.
    rewrite (omap_pointwise _ (fun i => rows_at σ (displayData t) !! i)).
    + apply pick_any_sublist.
    + intros i. cbn. by apply element_array.
  - done.
  - by eapply is_array_extends.
  - by eapply is_array_extends.
Qed.

Lemma step_ok σ0 c p rows0 a (s : Table * store) :
  view_ok σ0 c p rows0 s -> view_ok σ0 c p rows0 (step host a s).
Proof.
  destruct a; [apply sortByColumn_ok|apply filterTable_ok].
Qed.

Lemma run_ok σ0 c p rows0 actions : forall (s : Table * store),
  view_ok σ0 c p rows0 s -> view_ok σ0 c p rows0 (run host actions s).
Proof.
  induction actions as [|a actions IH]; intros s Hs; [done|].
  apply IH. by apply step_ok.
Qed.

(** Every state reached from the constructor is consistent. *)
Lemma reachable_ok (c : Config) (σ0 : store) actions :
  view_ok σ0 c (processedData (construct c σ0).1)
          (rows_at (construct c σ0).2 (processedData (construct c σ0).1))
          (run host actions (construct c σ0)).
Proof. apply run_ok, construct_ok. Qed.

(** ** When [filteredData] holds rows only *)

Lemma lookups_defined {A} (l : list A) (indexes : list nat) :
  Forall (fun i => (i < length l)%nat) indexes ->
  map (fun i => l !! i) indexes = map Some (omap (fun i => l !! i) indexes).
Proof.
  induction 1 as [|i indexes Hi _ IH]; [done|]. cbn.
  destruct (lookup_lt_is_Some_2 l i Hi) as [x Hx]. rewrite Hx. cbn.
  by rewrite IH.
Qed.

Lemma visibleRowIndexes_bound inputs body :
  Forall (fun i => (i < length body)%nat) (visibleRowIndexes inputs body).
Proof.
  apply List.Forall_forall. intros i Hi.
  unfold visibleRowIndexes in Hi. apply filter_In in Hi as [Hi _].
  apply in_seq in Hi. lia.
Qed.

(** A filter on a body with no more rows than [displayData] leaves an
    array of rows: the rows of [displayData] at the visible indexes. *)
Lemma filterTable_fits inputs body (t : Table) (σ : store) :
  is_array σ (displayData t) = true ->
  (length body <= length (rows_at σ (displayData t)))%nat ->
  let s' := filterTable inputs body t σ in
  is_array s'.2 (filteredData s'.1) = true
  /\ rows_at s'.2 (filteredData s'.1)
     = omap (fun i => rows_at σ (displayData t) !! i)
            (visibleRowIndexes inputs body).
Proof.
  intros Harr Hlen s'. subst s'. unfold filterTable.
  set (rows := rows_at σ (displayData t)) in *.
  set (indexes := visibleRowIndexes inputs body).
  assert (map (fun index => element σ (displayData t) index) indexes
          = map Some (omap (fun i => rows !! i) indexes)) as E.
  { rewrite <- lookups_defined.
    - apply map_ext. intros i. by apply element_array.
    - eapply Forall_impl; [apply visibleRowIndexes_bound|].
      intros i Hi. cbn in Hi. lia. }
  rewrite E. unfold array_of. rewrite all_defined_Some.
  pose proof (alloc_lookup (OArray (omap (fun i => rows !! i) indexes)) σ) as Hl.
  destruct (alloc _ σ) as [f σ']. cbn [fst snd filteredData] in *.
  unfold is_array, rows_at. by rewrite Hl.
Qed.

Lemma sortByColumn_fits col (t : Table) (σ : store) :
  is_array (sortByColumn host col t σ).2
           (filteredData (sortByColumn host col t σ).1) = true.
Proof.
  rewrite sortByColumn_eq. cbn zeta. cbn [fst snd filteredData].
  apply copy_array_is_array.
Qed.

Lemma init_fits (t : Table) (σ : store) :
  is_array (init t σ).2 (filteredData (init t σ).1) = true.
Proof.
  rewrite init_eq. cbn zeta. cbn [fst snd filteredData].
  eapply is_array_extends; [apply copy_array_extends|].
  apply copy_array_is_array.
Qed.

Lemma construct_fits (c : Config) (σ : store) :
  is_array (construct c σ).2 (filteredData (construct c σ).1) = true.
Proof. rewrite construct_eq. cbn zeta. apply init_fits. Qed.

Lemma entries_of_array (σ : store) l :
  is_array σ l = true -> entries_at σ l = map Some (rows_at σ l).
Proof.
  unfold is_array, entries_at, rows_at.
  by destruct (σ !! l) as [[cells|rows|entries]|].
Qed.

Lemma run_fits σ0 c p rows0 actions : forall (s : Table * store),
  view_ok σ0 c p rows0 s ->
  is_array s.2 (filteredData s.1) = true ->
  forallb (body_fits (length rows0)) actions = true ->
  is_array (run host actions s).2 (filteredData (run host actions s).1) = true.
Proof.
  induction actions as [|a actions IH]; intros s Hok Hf Hfit; [done|].
  cbn [forallb] in Hfit. apply andb_true_iff in Hfit as [Ha Hfit].
  cbn [run fold_left]. fold (run host actions (step host a s)).
  apply IH; [by apply step_ok| |done].
  destruct a as [col|inputs body]; cbn [step].
  - apply sortByColumn_fits.
  - apply filterTable_fits; [apply (ok_display_array _ _ _ _ _ Hok)|].
    cbn [body_fits] in Ha. apply Nat.leb_le in Ha.
    by rewrite (Permutation_length (ok_perm _ _ _ _ _ Hok)).
Qed.

Lemma rows_at_defined (σ : store) l :
  is_array σ l = true -> defined_rows σ l = rows_at σ l.
Proof.
  unfold is_array, rows_at. intros H.
  destruct (σ !! l) as [[cells|rows|entries]|] eqn:E; try done.
  by apply defined_rows_array.
Qed.

End WithHost.
End RunFacts.

(* ===================================================================== *)
(** * The view state: sorting, filtering and the raw data *)
(* ===================================================================== *)

Section ViewState.
Import Store StoreFacts TableLibrary Spec ListFacts ViewFacts RunFacts.
Variable host : Host.

(** C1.  In every state reached from the constructor by sort and filter
    actions the sort state is in the transition table, and a sort request
    for a column follows the table: from the inactive state to ascending
    on the column; from ascending on the column to descending; from
    descending on the column to the inactive state, where [displayData]
    becomes a new array holding the rows of [processedData] in their
    order, which is the order set at initialization; from a state that is
    active on another column to ascending on the requested column. *)
Theorem sort_cycle (c : Config) (σ0 : store) (actions : list action)
        (col : nat) :
  let s0 := construct c σ0 in
  let s := run host actions s0 in
  let s' := sortByColumn host col s.1 s.2 in
  in_table (sortState s.1)
  /\ (sortState s.1 = inactive -> sortState s'.1 = active col Asc)
  /\ (sortState s.1 = active col Asc -> sortState s'.1 = active col Desc)
  /\ (sortState s.1 = active col Desc ->
      sortState s'.1 = inactive
      /\ (displayData s'.1 ∉ dom s.2)
      /\ displayData s'.1 <> processedData s'.1
      /\ rows_at s'.2 (displayData s'.1) = rows_at s.2 (processedData s.1)
      /\ rows_at s'.2 (displayData s'.1) = rows_at s0.2 (processedData s0.1))
  /\ (forall other d, sortState s.1 = active other d -> other <> col ->
      sortState s'.1 = active col Asc).
Proof.
  intros s0 s s'.
  pose proof (reachable_ok host c σ0 actions) as Hok. fold s0 s in Hok.
  pose proof (sortByColumn_ok host _ _ _ _ col s Hok) as Hok'. fold s' in Hok'.
  assert (sortState s'.1
          = {| colIndex := match next_direction (sortState s.1) col with
                           | Some _ => Some col | None => None end;
               direction := next_direction (sortState s.1) col |}) as Hst.
  { subst s'. by rewrite sortByColumn_eq. }
  split; [apply Hok|].
  split; [|split; [|split]].
  - intros E. by rewrite Hst, E, next_direction_inactive.
  - intros E. by rewrite Hst, E, next_direction_ascending.
  - intros E.
    assert (next_direction (sortState s.1) col = None) as Hnd
      by (by rewrite E, next_direction_descending).
    split; [by rewrite Hst, Hnd|].
    assert (displayData s'.1 = (copy_array (processedData s.1) s.2).1
            /\ rows_at s'.2 (displayData s'.1) = rows_at s.2 (processedData s.1))
      as [Hd Hr].
    { subst s'. rewrite sortByColumn_eq. cbn zeta. rewrite Hnd.
      cbn [fst snd displayData sorted_display]. split; [done|].
      rewrite (rows_at_extends (copy_array (processedData s.1) s.2).2);
        [apply copy_array_rows|apply copy_array_extends
        |apply copy_array_allocated]. }
    split; [rewrite Hd; apply copy_array_fresh|].
    split; [rewrite (ok_processed _ _ _ _ _ Hok'); apply Hok'|].
    split; [done|].
    rewrite Hr, (ok_processed _ _ _ _ _ Hok). apply Hok.
  - intros other d E Hne. by rewrite Hst, E, next_direction_other.
Qed.

(** C5.  After every sort request, whether it sets a direction or resets
    the sort, [filteredData] is a new array, different from [displayData]
    and from every array that existed before, and it holds exactly the
    rows of the new [displayData] in the same order: the rows a filter
    had removed are back. *)
Theorem sort_resets_filtered (col : nat) (t : Table) (σ : store) :
  let s' := sortByColumn host col t σ in
  (filteredData s'.1 ∉ dom σ)
  /\ filteredData s'.1 <> displayData s'.1
  /\ rows_at s'.2 (filteredData s'.1) = rows_at s'.2 (displayData s'.1)
  /\ table_at s'.2 (filteredData s'.1) = table_at s'.2 (displayData s'.1).
Proof.
  intros s'. subst s'. rewrite sortByColumn_eq. cbn zeta.
  set (nd := next_direction (sortState t) col).
  set (d := sorted_display host nd col t σ).
  cbn [fst snd filteredData displayData].
  assert ((dom σ ⊆ dom d.2) /\ (d.1 ∈ dom d.2)) as [Hσ Hd].
  { subst d. destruct nd as [dd|]; cbn [sorted_display fst snd].
    - rewrite dom_insert_L. set_solver.
    - split; [apply subseteq_dom, copy_array_extends
             |apply copy_array_allocated]. }
  pose proof (copy_array_fresh d.1 d.2) as Hf.
  pose proof (copy_array_extends d.1 d.2) as He.
  assert (rows_at (copy_array d.1 d.2).2 (copy_array d.1 d.2).1
          = rows_at (copy_array d.1 d.2).2 d.1) as Hr.
  { rewrite copy_array_rows.
    by rewrite (rows_at_extends d.2 (copy_array d.1 d.2).2 d.1 He Hd). }
  split; [set_solver|]. split; [intros E; apply Hf; by rewrite E|].
  split; [done|]. unfold table_at. by rewrite Hr.
Qed.


(** C10.  When the raw data is in the store at initialization, then after
    initialization and any sequence of sort and filter actions the
    configuration is the one passed in, every object of the initial store
    is unchanged, in particular the array [config.data] and each of its
    rows, and [getData()] is that array: it still holds the original rows
    with their original cells, and it is none of the arrays
    [processedData], [displayData] and [filteredData].  Modification rules
    are functions of their arguments and cannot write to the store. *)
Theorem raw_data_unchanged (c : Config) (σ0 : store)
        (actions : list action) :
  raw_data_ok σ0 c = true ->
  let s := run host actions (construct c σ0) in
  config s.1 = c
  /\ (σ0 ⊆ s.2)
  /\ getData s.1 = config_data c
  /\ rows_at s.2 (getData s.1) = rows_at σ0 (config_data c)
  /\ table_at s.2 (getData s.1) = table_at σ0 (config_data c)
  /\ getData s.1 <> processedData s.1
  /\ getData s.1 <> displayData s.1
  /\ getData s.1 <> filteredData s.1.
Proof.
  intros Hraw s.
  pose proof (reachable_ok host c σ0 actions) as Hok. fold s in Hok.
  destruct Hok as [Hc Hfr Hp Hpr Hpa Hpn Hda Hdn Hdne Hfn Hperm Hsub Hst Harr Hparr].
  unfold raw_data_ok in Hraw.
  destruct (σ0 !! config_data c) as [[cells|rows|entries]|] eqn:Hd; try done.
  assert (config_data c ∈ dom σ0) as Hin by (apply elem_of_dom; eauto).
  assert (getData s.1 = config_data c) as Hg by (unfold getData; by rewrite Hc).
  assert (rows_at s.2 (config_data c) = rows_at σ0 (config_data c)) as Hrows
    by (by apply rows_at_extends).
  split; [done|]. split; [done|]. split; [done|]. rewrite Hg.
  split; [done|]. split.
  - unfold table_at. rewrite Hrows. unfold rows_at. rewrite Hd.
    apply map_ext_in. intros r Hr. apply row_at_extends; [done|].
    rewrite forallb_forall in Hraw. specialize (Hraw r Hr).
    unfold is_row in Hraw. apply elem_of_dom.
    destruct (σ0 !! r); [eauto|done].
  - rewrite Hp. split; [|split]; intros E; [apply Hpn|apply Hdn|apply Hfn];
      by rewrite <- E.
Qed.

End ViewState.

(* ===================================================================== *)
(** * Column hiding *)
(* ===================================================================== *)

Module HideFacts.
Import Store StoreFacts TableLibrary Spec.

Lemma filter_from_sublist {A} (keep : nat -> bool) (l : list A) : forall i,
  filter_from keep i l `sublist_of` l.
Proof.
  induction l as [|x l IH]; intros i; simpl; [constructor|].
  destruct (keep i); constructor; apply IH.
Qed.

(** The entries that are kept and the positions that are hidden add up
    to the length. *)
Lemma filter_from_length {A} (keep : nat -> bool) (l : list A) : forall i,
  (length (filter_from keep i l)
   + length (List.filter (fun j => negb (keep j)) (seq i (length l)))
   = length l)%nat.
Proof.
  induction l as [|x l IH]; intros i; simpl; [done|].
  specialize (IH (S i)). destruct (keep i); simpl; lia.
Qed.

Lemma hideIndexes_nonneg hs hc z : In z (hideIndexes hs hc) -> 0 <= z.
Proof. unfold hideIndexes. rewrite filter_In. lia. Qed.

Lemma includes_In idx i : includes idx i = true <-> In (Z.of_nat i) idx.
Proof.
  unfold includes. rewrite existsb_exists. split.
  - intros (z & Hz & E). apply Z.eqb_eq in E. by subst.
  - intros H. exists (Z.of_nat i). split; [done|]. apply Z.eqb_refl.
Qed.

(** The hidden positions below [n] are the distinct resolved indices
    below [n]. *)
Lemma hidden_positions hs hc n :
  length (List.filter
            (fun j => negb (negb (includes (hideIndexes hs hc) j)))
            (seq 0 n))
  = length (List.filter (fun i => i <? Z.of_nat n) (resolved hs hc)).
Proof.
  rewrite <- (length_map Z.of_nat).
  apply Permutation_length, NoDup_Permutation.
  - apply NoDup_fmap_2; [apply _|].
    eapply sublist_NoDup; [apply NoDup_seq|apply ListFacts.filter_sublist].
  - eapply sublist_NoDup; [|apply ListFacts.filter_sublist].
    apply NoDup_remove_dups.
  - intros z. rewrite list_elem_of_In, in_map_iff. setoid_rewrite filter_In.
    rewrite list_elem_of_In, filter_In.
    unfold resolved. rewrite <- list_elem_of_In, elem_of_remove_dups, list_elem_of_In.
    setoid_rewrite negb_involutive. setoid_rewrite includes_In.
    setoid_rewrite in_seq. split.
    + intros (j & <- & (Hj & Hin)). split; [done|]. apply Z.ltb_lt. lia.
    + intros (Hin & Hlt). apply Z.ltb_lt in Hlt.
      pose proof (hideIndexes_nonneg _ _ _ Hin).
      exists (Z.to_nat z). rewrite Z2Nat.id by done.
      split; [done|]. split; [lia|done].
Qed.

Lemma filter_index_length {A} hs hc (l : list A) :
  length (filter_index (fun i => negb (includes (hideIndexes hs hc) i)) l)
  = (length l
     - length (List.filter (fun i => (i <? Z.of_nat (length l))%Z)
                           (resolved hs hc)))%nat.
Proof.
  unfold filter_index.
  pose proof (filter_from_length
    (fun i => negb (includes (hideIndexes hs hc) i)) l 0%nat) as H.
  cbn beta in H. rewrite hidden_positions in H. lia.
Qed.

Lemma hideColumns_table c hs d (σ : store) :
  table_at (hideColumns c hs d σ).2 (hideColumns c hs d σ).1.2
  = map (filter_index
           (fun i => negb (includes (hideIndexes hs (config_hideColumns c)) i)))
        (table_at σ d).
Proof.
  rewrite ViewFacts.hideColumns_eq. cbn [fst snd].
  rewrite map_rows_table. apply list_eq. intros i.
  rewrite list_lookup_imap, list_lookup_fmap. by destruct (_ !! i).
Qed.

End HideFacts.

Section Projection.
Import Store StoreFacts TableLibrary Spec HideFacts.

(** C7 (amended).  For headings, rows of the length of the headings and
    any hide specifiers, the projected headings and every projected row
    have the length of the headings minus the number of distinct resolved
    indices that are positions of the headings; the same positions are
    removed from the headings and from every row, one projected row per
    row, and what remains keeps its relative order. *)
Theorem hide_columns_lengths (c : Config) (hs : list string) (d : loc)
        (σ : store) :
  Forall (fun row => length row = length hs) (table_at σ d) ->
  let out := hideColumns c hs d σ in
  let n := (length hs
            - length (resolved_columns hs (config_hideColumns c)))%nat in
  length out.1.1 = n
  /\ Forall (fun row => length row = n) (table_at out.2 out.1.2)
  /\ length (table_at out.2 out.1.2) = length (table_at σ d)
  /\ out.1.1 `sublist_of` hs
  /\ Forall2 (fun row' row => row' `sublist_of` row)
             (table_at out.2 out.1.2) (table_at σ d)
  /\ exists keep : nat -> bool,
       (forall i, keep i = false
                  <-> In (Z.of_nat i) (resolved hs (config_hideColumns c)))
       /\ out.1.1 = filter_index keep hs
       /\ table_at out.2 out.1.2 = map (filter_index keep) (table_at σ d).
Proof.
  intros Hrows out n.
  set (keep := fun i => negb (includes (hideIndexes hs (config_hideColumns c)) i)).
  assert (out.1.1 = filter_index keep hs) as Hh.
  { subst out. by rewrite ViewFacts.hideColumns_eq. }
  assert (table_at out.2 out.1.2 = map (filter_index keep) (table_at σ d)) as Ht
    by apply hideColumns_table.
  split; [rewrite Hh; apply filter_index_length|].
  split.
  { rewrite Ht. apply Forall_fmap. eapply Forall_impl; [exact Hrows|].
    intros row Hlen. cbn. subst keep. rewrite filter_index_length.
    subst n. unfold resolved_columns. by rewrite Hlen. }
  split; [by rewrite Ht, length_map|].
  split; [rewrite Hh; apply filter_from_sublist|].
  split.
  { rewrite Ht. apply Forall2_fmap_l, Forall_Forall2_diag, Forall_forall.
    intros row _. apply filter_from_sublist. }
  exists keep. split; [|done].
  intros i. subst keep. cbn. rewrite negb_false_iff, includes_In.
  unfold resolved. by rewrite <- !list_elem_of_In, elem_of_remove_dups.
Qed.

End Projection.

(* ===================================================================== *)
(** * Cell modification *)
(* ===================================================================== *)

Module ModifyFacts.
Import Store StoreFacts TableLibrary Spec.

Lemma applyModifications_table c mc d hs (σ : store) :
  config_modifyConfig c = Some mc ->
  table_at (applyModifications c d hs σ).2 (applyModifications c d hs σ).1
  = imap (modify_row mc hs) (table_at σ d).
Proof.
  intros E. unfold applyModifications. rewrite E. apply map_rows_table.
Qed.

Lemma modify_cell_heading_throws mc hs row r ci cell :
  applied (mc !! heading_key hs ci) cell row r ci = Some Throws ->
  modify_cell mc hs row r ci cell = cell.
Proof.
  unfold applied, modify_cell. destruct (mc !! heading_key hs ci); [|done].
  by intros [= ->].
Qed.

Lemma modify_cell_only_coordinate_throws mc hs row r ci cell :
  applied (mc !! heading_key hs ci) cell row r ci = None ->
  applied (mc !! coordinate_key r ci) cell row r ci = Some Throws ->
  modify_cell mc hs row r ci cell = cell.
Proof.
  unfold applied, modify_cell.
  destruct (mc !! heading_key hs ci); [done|]. intros _.
  destruct (mc !! coordinate_key r ci); [|done]. by intros [= ->].
Qed.

Lemma modify_cell_coordinate_throws mc hs row r ci cell v :
  applied (mc !! heading_key hs ci) cell row r ci = Some (Returns v) ->
  applied (mc !! coordinate_key r ci) cell row r ci = Some Throws ->
  modify_cell mc hs row r ci cell = v.
Proof.
  unfold applied, modify_cell.
  destruct (mc !! heading_key hs ci); [|done]. intros [= ->].
  destruct (mc !! coordinate_key r ci); [|done]. by intros [= ->].
Qed.

End ModifyFacts.

Section Modification.
Import Store StoreFacts TableLibrary Spec ModifyFacts.

(** C3 (amended).  The modification stage computes every cell on its own:
    the output has one row per input row and one cell per input cell,
    whatever the rules do at other cells.  At a cell where the heading
    rule throws, and at a cell with no heading rule where the coordinate
    rule throws, the output cell is the input cell.  At a cell where the
    heading rule returns a value and the coordinate rule throws, the
    output cell is the value the heading rule returned. *)
Theorem modification_failure (c : Config) (mc : gmap string rule)
        (d : loc) (hs : list string) (σ : store) :
  config_modifyConfig c = Some mc ->
  let out := applyModifications c d hs σ in
  length (table_at out.2 out.1) = length (table_at σ d)
  /\ forall r ci row cell,
       table_at σ d !! r = Some row -> row !! ci = Some cell ->
       exists row',
         table_at out.2 out.1 !! r = Some row'
         /\ length row' = length row
         /\ row' !! ci = Some (modify_cell mc hs row r ci cell)
         /\ (applied (mc !! heading_key hs ci) cell row r ci = Some Throws ->
             row' !! ci = Some cell)
         /\ (applied (mc !! heading_key hs ci) cell row r ci = None ->
             applied (mc !! coordinate_key r ci) cell row r ci = Some Throws ->
             row' !! ci = Some cell)
         /\ (forall v,
               applied (mc !! heading_key hs ci) cell row r ci
               = Some (Returns v) ->
               applied (mc !! coordinate_key r ci) cell row r ci = Some Throws ->
               row' !! ci = Some v).
Proof.
  intros E out. subst out. rewrite (applyModifications_table _ _ _ _ _ E).
  split; [by rewrite length_imap|].
  intros r ci row cell Hrow Hcell.
  exists (modify_row mc hs r row).
  assert (modify_row mc hs r row !! ci = Some (modify_cell mc hs row r ci cell))
    as Hout.
  { unfold modify_row. by rewrite list_lookup_imap, Hcell. }
  split; [by rewrite list_lookup_imap, Hrow|].
  split; [unfold modify_row; by rewrite length_imap|].
  split; [done|]. rewrite Hout.
  split; [intros H; by rewrite modify_cell_heading_throws|].
  split; [intros H1 H2; by rewrite modify_cell_only_coordinate_throws|].
  intros v H1 H2. by rewrite (modify_cell_coordinate_throws _ _ _ _ _ _ v).
Qed.

End Modification.


(* ===================================================================== *)
(** * Cell texts *)
(* ===================================================================== *)

Module CellFacts.
Import JsValue Cell.

Lemma append_empty (s : string) : s +:+ "" = s.
Proof.
  induction s as [|c s IH]; [done|].
  change (String c (s +:+ "") = String c s). by f_equal.
Qed.

Lemma append_assoc (a b c : string) : (a +:+ b) +:+ c = a +:+ (b +:+ c).
Proof.
  induction a as [|x a IH]; [done|].
  change (String x ((a +:+ b) +:+ c) = String x (a +:+ (b +:+ c))).
  by f_equal.
Qed.

End CellFacts.

Section Classification.
Import JsValue Markup Cell CellFacts.
Variable host : Host.

(** C2: what the code does with a null or undefined cell.  [renderCell]
    writes a [span] whose text is a dash, at every position of the
    table, while [getCellTextContent] returns the empty string, so that
    the field of the cell in the CSV export is empty: the text of the
    export is not the text the table shows, which is what the comments
    of [getCellTextContent] and [downloadAsCSV] say it is. *)
Theorem null_cell_shown_and_exported (r c : nat) :
  renderCell host VNull r c
  = "<span class=" +:+ q +:+ "table-library-null" +:+ q +:+ ">-</span>"
  /\ renderCell host VUndefined r c
     = "<span class=" +:+ q +:+ "table-library-null" +:+ q +:+ ">-</span>"
  /\ getCellTextContent host VNull = VStr ""
  /\ getCellTextContent host VUndefined = VStr ""
  /\ exportText host VNull = ""
  /\ exportText host VUndefined = ""
  /\ TableLibrary.csv_cell host VNull = q +:+ q
  /\ TableLibrary.csv_cell host VUndefined = q +:+ q.
Proof. repeat split. Qed.

(** C4: what the code does with an invalid date.  Both [getCellTextContent]
    and [renderCell] send it through [JSON.stringify], whose result for an
    invalid date is the text null: the export text is that text and the
    markup is that text in the [pre] of a generic object, and not the
    empty string, which is what [formatDateOrTimestamp] answers for
    it. *)
Theorem invalid_date_text (r c : nat) :
  getCellTextContent host (VDate None) = VStr "null"
  /\ exportText host (VDate None) = "null"
  /\ renderCell host (VDate None) r c
     = "<pre class=" +:+ q +:+ "table-library-object" +:+ q +:+ ">null</pre>"
  /\ formatDateOrTimestamp host (VDate None) = "".
Proof. repeat split. Qed.

End Classification.


(* ===================================================================== *)
(** * Aggregation and export *)
(* ===================================================================== *)

Module NumberFacts.
Import JsString JsNumber Spec.

Lemma pretty_N_char_digit x : is_digit (pretty_N_char x) = true.
Proof.
  unfold pretty_N_char. by repeat case_match.
Qed.

Lemma pretty_N_go_digits x : forall s,
  all_digits s -> all_digits (pretty_N_go x s).
Proof.
  induction (N.lt_wf_0 x) as [x _ IH]. intros s Hs.
  destruct (decide (0 < x)%N) as [Hx|Hx].
  - rewrite pretty_N_go_step by done. apply IH.
    + by apply N.div_lt.
    + intros c [<-|Hc]; [apply pretty_N_char_digit|by apply Hs].
  - assert (x = 0%N) as -> by lia. by rewrite pretty_N_go_0.
Qed.

Lemma pretty_N_go_nonempty x : forall s, s <> "" -> pretty_N_go x s <> "".
Proof.
  induction (N.lt_wf_0 x) as [x _ IH]. intros s Hs.
  destruct (decide (0 < x)%N) as [Hx|Hx].
  - rewrite pretty_N_go_step by done. apply IH; [by apply N.div_lt|done].
  - assert (x = 0%N) as -> by lia. by rewrite pretty_N_go_0.
Qed.

Lemma digits_all_digits n : all_digits (digits n).
Proof.
  unfold digits, pretty, pretty_N. case_decide.
  - intros c [<-|[]]. done.
  - apply pretty_N_go_digits. intros c [].
Qed.

Lemma digits_nonempty n : digits n <> "".
Proof.
  unfold digits, pretty, pretty_N. case_decide; [done|].
  rewrite pretty_N_go_step by lia. by apply pretty_N_go_nonempty.
Qed.

Lemma digits_single n :
  0 <= n < 10 -> exists d, digits n = String d "" /\ is_digit d = true.
Proof.
  intros H. rewrite <- (Z2Nat.id n) by lia.
  assert (Z.to_nat n < 10)%nat as Hk by lia.
  generalize dependent (Z.to_nat n). clear H. intros k Hk.
  do 10 (destruct k as [|k]; [eexists; split; reflexivity|]).
  lia.
Qed.

Lemma fixed_form_digits ds d1 d2 : forall b,
  all_digits ds -> is_digit d1 = true -> is_digit d2 = true ->
  (b = true \/ ds <> "") ->
  fixed_form b (ds +:+ "." +:+ String d1 (String d2 "")) = true.
Proof.
  induction ds as [|c ds IH]; intros b Hds H1 H2 Hb.
  - destruct Hb as [->|]; [|done].
    change (true && (is_digit d1 && is_digit d2) = true).
    by rewrite H1, H2.
  - change (fixed_form b (String c (ds +:+ "." +:+ String d1 (String d2 ""))) = true).
    cbn [fixed_form]. rewrite (Hds c) by (by left).
    apply IH; [|done|done|by left].
    intros c' Hc'. apply Hds. by right.
Qed.

Lemma fixed2_digits_form n : fixed_form false (fixed2_digits n) = true.
Proof.
  unfold fixed2_digits.
  destruct (digits_single (n / 10 mod 10)) as (d1 & -> & H1).
  { apply Z.mod_pos_bound. lia. }
  destruct (digits_single (n mod 10)) as (d2 & -> & H2).
  { apply Z.mod_pos_bound. lia. }
  apply fixed_form_digits; [apply digits_all_digits|done|done|].
  right. apply digits_nonempty.
Qed.

(** In its fixed-point range [toFixed(2)] writes exactly two decimal
    places. *)
Lemma toFixed2_two_decimals x :
  Spec.fixed_range x = true -> two_decimals (toFixed2 x) = true.
Proof.
  unfold Spec.fixed_range, toFixed2.
  destruct (Prim2SF x) as [s|s| |s m e]; try done.
  intros H. apply negb_true_iff in H. rewrite H.
  unfold two_decimals. destruct s.
  - apply orb_true_iff. right.
    change (Ascii.eqb "-" "-"
            && fixed_form false (fixed2_digits (round_hundredths (Z.pos m) e))
            = true).
    by rewrite fixed2_digits_form.
  - change ("" +:+ fixed2_digits (round_hundredths (Z.pos m) e))
      with (fixed2_digits (round_hundredths (Z.pos m) e)).
    by rewrite fixed2_digits_form.
Qed.

End NumberFacts.

Section Aggregation.
Import Store TableLibrary Spec NumberFacts.

Lemma column_numbers_spec rows col :
  column_numbers rows col = omap (fun row => numeric_cell row col) rows.
Proof.
  unfold column_numbers, numeric_cell, cell_at.
  induction rows as [|row rows IH]; [done|].
  cbn [map List.filter omap list_omap].
  destruct (row !! col) as [[]|]; cbn; try done.
  destruct (JsNumber.isNaN x); cbn; [done|]. by f_equal.
Qed.

Lemma metric_aggregate values type :
  values <> [] ->
  metric values type
  = match aggregate values type with
    | Some x => JsNumber.toFixed2 x
    | None => ""
    end.
Proof.
  intros H. unfold metric, aggregate. destruct values; [done|].
  by repeat case_match.
Qed.

(** C8 (amended).  When an element of [filteredData] is [undefined] the
    call ends in a TypeError.  Otherwise the values aggregated are the
    numbers of the column in the filtered rows that are not NaN.  When
    there is none the result is the empty string, which is neither 0 nor
    NaN.  Otherwise, for the metrics sum, avg, max and min, the result is
    [toFixed(2)] of the sum, of the sum divided by the count, of the
    maximum and of the minimum of those values in JavaScript number
    arithmetic; and when that number is finite and below 10^21 in
    magnitude the result has exactly two decimal places. *)
Theorem aggregation (t : Table) (col : nat) (type : string) (σ : store) :
  (rows_of σ (filteredData t) = None -> calculateMetric t col type σ = None)
  /\ forall filtered, rows_of σ (filteredData t) = Some filtered ->
     let rows := map (row_at σ) filtered in
     let values := column_numbers rows col in
     values = omap (fun row => numeric_cell row col) rows
     /\ (values = [] ->
         calculateMetric t col type σ = Some ""
         /\ calculateMetric t col type σ <> Some "0"
         /\ calculateMetric t col type σ <> Some "NaN")
     /\ (forall x, values <> [] -> aggregate values type = Some x ->
         calculateMetric t col type σ = Some (JsNumber.toFixed2 x)
         /\ (fixed_range x = true ->
             two_decimals (JsNumber.toFixed2 x) = true)).
Proof.
  split; [intros E; unfold calculateMetric; by rewrite E|].
  intros filtered E rows values. split; [apply column_numbers_spec|].
  unfold calculateMetric. rewrite E. fold rows. fold values. split.
  - by intros ->.
  - intros x Hne Hx. split; [by rewrite metric_aggregate, Hx|].
    apply toFixed2_two_decimals.
Qed.

End Aggregation.

Section CsvExport.
Import JsValue Store TableLibrary Spec.
Variable host : Host.

Lemma fold_lines {A} (line : A -> string) (rows : list A) : forall acc,
  fold_left (fun csv row => csv +:+ line row) rows acc
  = acc +:+ concat_lines (map line rows).
Proof.
  induction rows as [|row rows IH]; intros acc.
  - by rewrite CellFacts.append_empty.
  - cbn [fold_left map concat_lines]. rewrite IH.
    by rewrite CellFacts.append_assoc.
Qed.

(** The exported text, line by line. *)
Lemma csvContent_lines hs rows includeHeaders :
  csvContent host hs rows includeHeaders
  = (if includeHeaders then JsString.join "," (map quoted hs) +:+ nl else "")
    +:+ concat_lines
          (map (fun row => JsString.join "," (map (csv_cell host) row) +:+ nl)
               rows).
Proof.
  unfold csvContent.
  by rewrite (fold_lines
                (fun row => JsString.join "," (map (csv_cell host) row) +:+ nl)).
Qed.

(** The code side and the words of the specification, piece by piece. *)
Lemma escaped_double_quotes text : escaped text = JsString.double_quotes text.
Proof.
  unfold escaped. induction text as [|c text IH]; [done|].
  cbn [list_ascii_of_string flat_map JsString.double_quotes].
  unfold escaped_char at 1.
  destruct (Ascii.eqb_spec c JsString.dquote) as [->|Hne].
  - cbn. by rewrite <- IH.
  - destruct (decide (nat_of_ascii c = 34%nat)) as [E|_].
    + destruct Hne. by rewrite <- (ascii_nat_embedding c), E.
    + cbn. by rewrite <- IH.
Qed.

Lemma wrapped_quoted field : wrapped field = quoted field.
Proof. done. Qed.

Lemma comma_joined_join fields : comma_joined fields = JsString.join "," fields.
Proof.
  destruct fields as [|first others]; [done|]. cbn [comma_joined].
  revert first. induction others as [|field others IH]; intros first.
  - apply CellFacts.append_empty.
  - change (JsString.join "," (first :: field :: others))
      with (first +:+ "," +:+ JsString.join "," (field :: others)).
    rewrite <- IH. cbn [map concat_lines].
    by rewrite CellFacts.append_assoc.
Qed.

Lemma csvContent_spec hs rows includeHeaders :
  csvContent host hs rows includeHeaders
  = csv_of_spec host hs rows includeHeaders.
Proof.
  rewrite csvContent_lines. unfold csv_of_spec, header_row, data_row.
  rewrite comma_joined_join. f_equal. f_equal.
  apply map_ext. intros row. rewrite comma_joined_join. f_equal. f_equal.
  apply map_ext. intros cell. unfold csv_cell.
  by rewrite escaped_double_quotes.
Qed.


End CsvExport.

(* ===================================================================== *)
(** * The properties at concrete tables *)
(* ===================================================================== *)

Section Examples.
Import JsValue Store TableLibrary Spec Props.

(** The specification's scenario A: sorting the sample table on the
    column Age puts Al, whose modified age is 26, before Bob. *)
Example scenario_sort_ascending :
  let s := construct sample_config sample_store in
  let s' := sortByColumn code_order_host 1 s.1 s.2 in
  table_at s.2 (displayData s.1)
  = [[VStr "Bob"; VNum 31]; [VStr "Al"; VNum 26]]
  /\ table_at s'.2 (displayData s'.1)
     = [[VStr "Al"; VNum 26]; [VStr "Bob"; VNum 31]]
  /\ sortState s'.1 = active 1 Asc.
Proof. vm_compute. done. Qed.

(** The specification's scenario D: the filter al on the first column
    keeps the row of Al. *)
Example scenario_filter :
  let s := construct sample_config sample_store in
  let s' := filterTable ["al"; ""] sample_body s.1 s.2 in
  table_at s'.2 (filteredData s'.1) = [[VStr "Al"; VNum 26]].
Proof. vm_compute. done. Qed.

(** Three requests for the same column: ascending, descending, and the
    original order again. *)
Example scenario_three_presses :
  let s := construct sample_config sample_store in
  let s3 := run code_order_host [Sort 1; Sort 1; Sort 1] s in
  sortState s3.1 = inactive
  /\ rows_at s3.2 (displayData s3.1) = rows_at s.2 (processedData s.1).
Proof. vm_compute. done. Qed.

(** [sort_cycle] at the sample table after two requests for the column
    Age: the state is descending on that column, and the third request resets
    the sort and the order of the rows. *)
Lemma sort_cycle_sample :
  let s0 := construct sample_config sample_store in
  let s := run code_order_host [Sort 1%nat; Sort 1%nat] s0 in
  let s' := sortByColumn code_order_host 1 s.1 s.2 in
  sortState s.1 = active 1 Desc
  /\ sortState s'.1 = inactive
  /\ rows_at s'.2 (displayData s'.1) = rows_at s0.2 (processedData s0.1).
Proof.
  intros s0 s s'.
  assert (sortState s.1 = active 1 Desc) as E by reflexivity.
  split; [exact E|].
  destruct (sort_cycle code_order_host sample_config sample_store
              [Sort 1%nat; Sort 1%nat] 1%nat)
    as (_ & _ & _ & Hreset & _).
  destruct (Hreset E) as (Hst & _ & _ & _ & Hrows).
  split; [exact Hst|exact Hrows].
Defined.

(** The hypothesis of [raw_data_unchanged] holds of a run of the sample
    table. *)
Lemma raw_data_unchanged_sample :
  raw_data_ok sample_store sample_config = true
  /\ let s := run code_order_host
                 [Sort 1%nat; Filter ["al"] sorted_sample_body; Sort 1%nat]
                 (construct sample_config sample_store) in
     config s.1 = sample_config
     /\ (sample_store ⊆ s.2)
     /\ getData s.1 = config_data sample_config
     /\ rows_at s.2 (getData s.1)
        = rows_at sample_store (config_data sample_config)
     /\ table_at s.2 (getData s.1)
        = table_at sample_store (config_data sample_config)
     /\ getData s.1 <> processedData s.1
     /\ getData s.1 <> displayData s.1
     /\ getData s.1 <> filteredData s.1.
Proof.
  split; [reflexivity|].
  apply (raw_data_unchanged code_order_host sample_config sample_store).
  reflexivity.
Defined.

(** The claim C3 as it is stated fails: a coordinate rule throws at the
    cell, and the output cell is not the input cell but the value the
    heading rule had returned. *)
Lemma coordinate_rule_throws_after_heading_rule :
  let out := applyModifications one_cell_config 2%positive ["H"]
               one_cell_store in
  applied (one_cell_rules !! coordinate_key 0 0) (VStr "a") [VStr "a"] 0 0
  = Some Throws
  /\ table_at one_cell_store 2%positive = [[VStr "a"]]
  /\ table_at out.2 out.1 = [[VStr "b"]]
  /\ table_at out.2 out.1 <> table_at one_cell_store 2%positive.
Proof. vm_compute. repeat split; done. Qed.

(** The amended statement at the one-cell table: the heading rule returns
    a value, the coordinate rule throws, and the output cell is that
    value. *)
Lemma modification_failure_sample :
  config_modifyConfig one_cell_config = Some one_cell_rules
  /\ let out := applyModifications one_cell_config 2%positive ["H"]
                 one_cell_store in
     exists row',
       table_at out.2 out.1 !! 0%nat = Some row'
       /\ row' !! 0%nat = Some (VStr "b").
Proof.
  split; [reflexivity|].
  destruct (proj2 (modification_failure one_cell_config one_cell_rules
                     2%positive ["H"] one_cell_store eq_refl)
                  0%nat 0%nat [VStr "a"] (VStr "a") eq_refl eq_refl)
    as (row' & Hrow & _ & _ & _ & _ & Hthrows).
  exists row'. split; [exact Hrow|].
  apply Hthrows; reflexivity.
Defined.

(** The claim C7 as it is stated fails.  The index 5 is a resolved hide
    specifier, yet nothing is removed from two columns.  And when the first
    column is hidden by its label and by its index, two hide specifiers are
    resolved and one column is removed. *)
Lemma hide_index_out_of_range :
  let out := hideColumns hide_fifth_config ["A"; "B"] 2%positive
               two_column_store in
  let out2 := hideColumns hide_twice_config ["A"; "B"] 2%positive
                two_column_store in
  resolved ["A"; "B"] (HideMany [HideIndex 5]) = [5]
  /\ out.1.1 = ["A"; "B"]
  /\ table_at out.2 out.1.2 = [[VStr "x"; VStr "y"]]
  /\ length out.1.1
     <> (length ["A"; "B"]
         - length (resolved ["A"; "B"] (HideMany [HideIndex 5])))%nat
  /\ hideIndexes ["A"; "B"] (HideMany [HideLabel "A"; HideIndex 0]) = [0; 0]
  /\ out2.1.1 = ["B"]
  /\ table_at out2.2 out2.1.2 = [[VStr "y"]].
Proof. vm_compute. repeat split; done. Qed.

(** The amended statement at the two-column table with the first column
    hidden by its label and once more by its index. *)
Lemma hide_columns_lengths_sample :
  Forall (fun row => length row = length ["A"; "B"])
         (table_at two_column_store 2%positive)
  /\ let out := hideColumns hide_twice_config ["A"; "B"] 2%positive
                 two_column_store in
     length out.1.1 = 1%nat
     /\ Forall (fun row => length row = 1%nat) (table_at out.2 out.1.2).
Proof.
  assert (Forall (fun row => length row = length ["A"; "B"])
                 (table_at two_column_store 2%positive)) as H
    by (repeat constructor).
  split; [exact H|].
  destruct (hide_columns_lengths hide_twice_config ["A"; "B"] 2%positive
              two_column_store H)
    as (Hh & Hr & _).
  split; [exact Hh|exact Hr].
Defined.

(** The claim C8 as it is stated fails: the columns hold one number each,
    neither is NaN, and their sums are not written with two decimal
    places. *)
Lemma sum_of_infinity :
  column_numbers (table_at infinity_table.2 (filteredData infinity_table.1)) 0
  = [PrimFloat.infinity]
  /\ calculateMetric infinity_table.1 0 "sum" infinity_table.2
     = Some "Infinity"
  /\ two_decimals "Infinity" = false
  /\ column_numbers (table_at infinity_table.2 (filteredData infinity_table.1)) 1
     = [1e21%float]
  /\ calculateMetric infinity_table.1 1 "sum" infinity_table.2 = Some "1e+21"
  /\ two_decimals "1e+21" = false.
Proof. vm_compute. done. Qed.

(** [aggregation] at the sample table: the sum of the ages is in the
    fixed-point range, and it is written with two decimal places. *)
Lemma aggregation_sample :
  let s := construct sample_config sample_store in
  rows_of s.2 (filteredData s.1) = Some (rows_at s.2 (filteredData s.1))
  /\ aggregate (column_numbers (table_at s.2 (filteredData s.1)) 1) "sum"
     = Some 57%float
  /\ fixed_range 57%float = true
  /\ calculateMetric s.1 1 "sum" s.2 = Some (JsNumber.toFixed2 57%float)
  /\ two_decimals (JsNumber.toFixed2 57%float) = true.
Proof.
  intros s.
  assert (rows_of s.2 (filteredData s.1)
          = Some (rows_at s.2 (filteredData s.1))) as Hrows by reflexivity.
  assert (aggregate (column_numbers (table_at s.2 (filteredData s.1)) 1) "sum"
          = Some 57%float) as E by reflexivity.
  split; [exact Hrows|]. split; [exact E|]. split; [reflexivity|].
  destruct (proj2 (aggregation s.1 1%nat "sum" s.2) _ Hrows) as (_ & _ & H).
  destruct (H 57%float ltac:(discriminate) E) as [H1 H2].
  split; [exact H1|]. apply H2. reflexivity.
Defined.

(** The average of the ages of the sample table, over all rows and over
    the rows a filter keeps. *)
Example scenario_average :
  let s := construct sample_config sample_store in
  let s' := filterTable ["al"] sample_body s.1 s.2 in
  calculateMetric s.1 1 "avg" s.2 = Some "28.50"
  /\ calculateMetric s'.1 1 "avg" s'.2 = Some "26.00"
  /\ calculateMetric s.1 0 "avg" s.2 = Some "".
Proof. vm_compute. done. Qed.



End Examples.

(* ===================================================================== *)
(** * Reading back the CSV export *)
(* ===================================================================== *)

Module CsvFacts.
Import JsValue TableLibrary Spec Props CellFacts.

Lemma app_cons c (s t : string) : String c s +:+ t = String c (s +:+ t).
Proof. reflexivity. Qed.

Lemma dquote_eqb c :
  Ascii.eqb c JsString.dquote = false -> c <> JsString.dquote.
Proof. intros H ->. by rewrite Ascii.eqb_refl in H. Qed.

(** The reader inside a field: the doubled text is read back as the text. *)
Lemma read_in_field text : forall field row rows rest,
  read_csv InField field row rows
           (JsString.double_quotes text +:+ String JsString.dquote rest)
  = read_csv AfterQuote (field +:+ text) row rows rest.
Proof.
  induction text as [|c text IH]; intros field row rows rest.
  - cbn [JsString.double_quotes]. rewrite append_empty.
    change ("" +:+ String JsString.dquote rest) with (String JsString.dquote rest).
    cbn [read_csv]. by rewrite Ascii.eqb_refl.
  - cbn [JsString.double_quotes].
    destruct (Ascii.eqb c JsString.dquote) eqn:E.
    + rewrite !app_cons. cbn [read_csv]. rewrite !E.
      rewrite IH. unfold snoc_char. by rewrite append_assoc.
    + rewrite app_cons. cbn [read_csv]. rewrite !E.
      rewrite IH. unfold snoc_char. by rewrite append_assoc.
Qed.

Lemma enc_shape t (rest : string) :
  enc t +:+ rest
  = String JsString.dquote
      (JsString.double_quotes t +:+ String JsString.dquote rest).
Proof.
  transitivity
    (String JsString.dquote
       ((JsString.double_quotes t +:+ String JsString.dquote "") +:+ rest));
    [reflexivity|].
  f_equal. by rewrite append_assoc.
Qed.

(** The reader after a field: the remaining fields of the line. *)
Lemma read_line_tail texts : forall field row rows rest,
  read_csv AfterQuote field row rows (line_tail texts +:+ rest)
  = read_csv LineStart "" [] (rows ++ [(row ++ field :: texts)%list])%list rest.
Proof.
  induction texts as [|t texts IH]; intros field row rows rest.
  - reflexivity.
  - transitivity
      (read_csv AfterQuote field row rows
         (String "," (enc t +:+ (line_tail texts +:+ rest)))).
    { f_equal. cbn [line_tail].
      transitivity (String "," ((enc t +:+ line_tail texts) +:+ rest));
        [reflexivity|].
      f_equal. by rewrite append_assoc. }
    rewrite enc_shape.
    transitivity
      (read_csv InField "" (row ++ [field])%list rows
         (JsString.double_quotes t
          +:+ String JsString.dquote (line_tail texts +:+ rest)));
      [reflexivity|].
    rewrite read_in_field, IH. by rewrite <- app_assoc.
Qed.

Lemma join_cons sep x y (xs : list string) :
  JsString.join sep (x :: y :: xs) = x +:+ sep +:+ JsString.join sep (y :: xs).
Proof. reflexivity. Qed.

Lemma line_cons t texts :
  line (t :: texts) = enc t +:+ line_tail texts.
Proof.
  unfold line. revert t. induction texts as [|u texts IH]; intros t.
  - reflexivity.
  - cbn [map]. rewrite join_cons. cbn [line_tail].
    rewrite !append_assoc. f_equal. f_equal.
    specialize (IH u). cbn [map] in IH. exact IH.
Qed.

Lemma read_line texts rows rest :
  read_csv LineStart "" [] rows (line texts +:+ rest)
  = read_csv LineStart "" [] (rows ++ [texts])%list rest.
Proof.
  destruct texts as [|t texts].
  - reflexivity.
  - rewrite line_cons, append_assoc, enc_shape.
    transitivity
      (read_csv InField "" [] rows
         (JsString.double_quotes t
          +:+ String JsString.dquote (line_tail texts +:+ rest)));
      [reflexivity|].
    by rewrite read_in_field, read_line_tail.
Qed.

Lemma read_lines (tss : list (list string)) : forall rows,
  read_csv LineStart "" [] rows (concat_lines (map line tss))
  = Some (rows ++ tss)%list.
Proof.
  induction tss as [|ts tss IH]; intros rows.
  - cbn. by rewrite app_nil_r.
  - cbn [map concat_lines]. rewrite read_line, IH.
    by rewrite <- app_assoc.
Qed.

Lemma append_cancel (a x y : string) : a +:+ x = a +:+ y -> x = y.
Proof.
  induction a as [|c a IH]; [done|].
  rewrite !app_cons. intros [= E]. by apply IH.
Qed.

Lemma double_quotes_quote_free s :
  quote_free s = true -> JsString.double_quotes s = s.
Proof.
  induction s as [|c s IH]; [done|]. cbn [quote_free JsString.double_quotes].
  intros [Hc Hs]%andb_true_iff. apply negb_true_iff in Hc. rewrite Hc.
  by rewrite IH.
Qed.

Section WithHost.
Variable host : Host.

Lemma data_row_line row :
  JsString.join "," (map (csv_cell host) row) +:+ nl
  = line (map (Cell.exportText host) row).
Proof. unfold line, enc, csv_cell. by rewrite map_map. Qed.

Lemma data_lines rows :
  map (fun row => JsString.join "," (map (csv_cell host) row) +:+ nl) rows
  = map line (map (map (Cell.exportText host)) rows).
Proof.
  rewrite map_map. apply map_ext. intros row. apply data_row_line.
Qed.

Lemma header_line hs :
  forallb quote_free hs = true ->
  JsString.join "," (map quoted hs) +:+ nl = line hs.
Proof.
  intros H. unfold line. f_equal. f_equal.
  induction hs as [|h hs IH]; [done|].
  cbn [forallb] in H. apply andb_true_iff in H as [Hh Hhs].
  cbn [map]. rewrite IH by done. unfold enc.
  by rewrite double_quotes_quote_free.
Qed.

End WithHost.
End CsvFacts.

Section CsvReading.
Import JsValue TableLibrary Spec Props CsvFacts.
Variable host : Host.

(** X1.  The data lines of the export are read back, by a reader of quoted
    comma-separated fields, as the export texts of the cells: one row of
    fields per filtered row and one field per cell, whatever commas, double
    quotes and newlines the texts contain. *)
Theorem csv_data_round_trip (hs : list string) (rows : list (list value)) :
  read (csvContent host hs rows false)
  = Some (map (map (Cell.exportText host)) rows).
Proof.
  rewrite csvContent_lines.
  change ("" +:+ ?x) with x.
  rewrite data_lines. apply read_lines.
Qed.

(** X2.  When no heading contains a double quote, the export with headers
    is read back as the headings followed by the export texts of the cells.
    Headings are written between double quotes without doubling the double
    quotes they contain. *)
Theorem csv_header_round_trip (hs : list string) (rows : list (list value)) :
  forallb quote_free hs = true ->
  read (csvContent host hs rows true)
  = Some (hs :: map (map (Cell.exportText host)) rows).
Proof.
  intros H. rewrite csvContent_lines.
  rewrite (header_line hs H), data_lines.
  unfold read. rewrite read_line. apply read_lines.
Qed.

(** X3.  The export never writes the same text for two tables whose cells
    differ in their export texts: from the exported text, with or without
    the header line, the export texts of all cells of all rows are
    determined. *)
Theorem csv_export_injective (hs : list string)
        (rows1 rows2 : list (list value)) (includeHeaders : bool) :
  csvContent host hs rows1 includeHeaders
  = csvContent host hs rows2 includeHeaders ->
  map (map (Cell.exportText host)) rows1
  = map (map (Cell.exportText host)) rows2.
Proof.
  rewrite !csvContent_lines. intros E.
  apply append_cancel in E. rewrite !data_lines in E.
  pose proof (read_lines (map (map (Cell.exportText host)) rows1) []) as H1.
  pose proof (read_lines (map (map (Cell.exportText host)) rows2) []) as H2.
  rewrite E in H1. rewrite H1 in H2. by injection H2.
Qed.

End CsvReading.

(* ===================================================================== *)
(** * More facts about the view state *)
(* ===================================================================== *)

Module ViewFacts2.
Import Store StoreFacts TableLibrary TableMethods Spec Props ViewFacts RunFacts.

(** Allocating an array changes the cells of no row. *)
Lemma alloc_array_row_at rows (σ : store) l :
  row_at (alloc (OArray rows) σ).2 l = row_at σ l.
Proof.
  unfold row_at, alloc. cbn [snd].
  destruct (decide (l = fresh (dom σ))) as [->|Hne].
  - rewrite lookup_insert_eq.
    by rewrite (proj1 (not_elem_of_dom σ (fresh (dom σ))) (is_fresh (dom σ))).
  - by rewrite lookup_insert_ne.
Qed.

Lemma alloc_entries_row_at entries (σ : store) l :
  row_at (alloc (array_of entries) σ).2 l = row_at σ l.
Proof.
  unfold row_at, alloc. cbn [snd].
  destruct (decide (l = fresh (dom σ))) as [->|Hne].
  - rewrite lookup_insert_eq.
    rewrite (proj1 (not_elem_of_dom σ (fresh (dom σ))) (is_fresh (dom σ))).
    unfold array_of. by destruct (all_defined entries).
  - by rewrite lookup_insert_ne.
Qed.

Lemma alloc_empty_rows_at (σ : store) l :
  rows_at (alloc (OArray []) σ).2 l = rows_at σ l.
Proof.
  unfold rows_at, alloc. cbn [snd].
  destruct (decide (l = fresh (dom σ))) as [->|Hne].
  - rewrite lookup_insert_eq.
    by rewrite (proj1 (not_elem_of_dom σ (fresh (dom σ))) (is_fresh (dom σ))).
  - by rewrite lookup_insert_ne.
Qed.

Lemma copy_array_row_at d (σ : store) l :
  row_at (copy_array d σ).2 l = row_at σ l.
Proof. apply alloc_array_row_at. Qed.

(** Writing an array over an array changes the cells of no row. *)
Lemma insert_array_row_at rows (σ : store) d l :
  is_array σ d = true -> row_at (<[d := OArray rows]> σ) l = row_at σ l.
Proof.
  unfold row_at, is_array. intros H.
  destruct (decide (l = d)) as [->|Hne].
  - rewrite lookup_insert_eq. by destruct (σ !! d) as [[]|].
  - by rewrite lookup_insert_ne.
Qed.

Lemma table_at_eq (σ σ' : store) l :
  rows_at σ' l = rows_at σ l -> (forall r, row_at σ' r = row_at σ r) ->
  table_at σ' l = table_at σ l.
Proof.
  intros Hr Hc. unfold table_at. rewrite Hr. apply map_ext. intros r. apply Hc.
Qed.

(** What [init] leaves behind. *)
Lemma init_views (t : Table) (σ : store) :
  let s := init t σ in
  rows_at s.2 (displayData s.1) = rows_at s.2 (processedData s.1)
  /\ rows_at s.2 (filteredData s.1) = rows_at s.2 (processedData s.1)
  /\ is_array s.2 (displayData s.1) = true
  /\ sortState s.1 = sortState t
  /\ config s.1 = config t
  /\ processedHeadings s.1
     = filter_index (kept_position (config t)) (config_headings (config t))
  /\ table_at s.2 (processedData s.1)
     = pipeline (config t) (table_at σ (config_data (config t))).
Proof.
  intros s. subst s. rewrite init_eq. cbn zeta.
  cbn [fst snd processedData displayData filteredData sortState config
       processedHeadings].
  destruct (init_processed t σ) as (Hin & Hnew & Hsub). cbn zeta in *.
  set (h := hideColumns _ _ _ σ) in *.
  set (m := applyModifications _ _ _ _) in *.
  set (f := copy_array m.1 m.2).
  set (d := copy_array m.1 f.2).
  assert (m.2 ⊆ f.2) as Hmf by apply copy_array_extends.
  assert (f.2 ⊆ d.2) as Hfd by apply copy_array_extends.
  assert (m.1 ∈ dom f.2) as Hinf by (by eapply dom_extends).
  assert (rows_at d.2 m.1 = rows_at m.2 m.1) as Hp.
  { rewrite (rows_at_extends f.2 d.2) by done.
    by rewrite (rows_at_extends m.2 f.2). }
  assert (rows_at d.2 d.1 = rows_at m.2 m.1) as Hd.
  { subst d. rewrite copy_array_rows. by rewrite (rows_at_extends m.2 f.2). }
  assert (rows_at d.2 f.1 = rows_at m.2 m.1) as Hf.
  { rewrite (rows_at_extends f.2 d.2); [|done|apply copy_array_allocated].
    subst f. by rewrite copy_array_rows. }
  split; [by rewrite Hd, Hp|]. split; [by rewrite Hf, Hp|].
  split; [apply copy_array_is_array|]. split; [done|]. split; [done|].
  assert (h.1.1 = filter_index (kept_position (config t))
                               (config_headings (config t))) as Hh.
  { subst h. by rewrite hideColumns_eq. }
  split; [done|].
  rewrite (table_at_eq m.2 d.2 m.1).
  2: { by rewrite Hp. }
  2: { intros r. subst d f. by rewrite !copy_array_row_at. }
  unfold pipeline. subst m. unfold applyModifications.
  destruct (config_modifyConfig (config t)) as [mc|].
  - rewrite map_rows_table. subst h. rewrite HideFacts.hideColumns_table.
    by rewrite Hh.
  - subst h. apply HideFacts.hideColumns_table.
Qed.

Section WithHost.
Variable host : Host.

Lemma sorted_display_more σ0 c p rows0 cells nd col (s : Table * store) :
  view_ok σ0 c p rows0 s -> view_more cells s ->
  let d := sorted_display host nd col s.1 s.2 in
  is_array d.2 d.1 = true
  /\ (forall r, row_at d.2 r = cells r)
  /\ (nd = None -> rows_at d.2 d.1 = rows_at d.2 (processedData s.1))
  /\ (d.1 ∈ dom d.2) /\ (processedData s.1 ∈ dom d.2)
  /\ (rows_at d.2 (processedData s.1) = rows_at s.2 (processedData s.1))
  /\ (forall dir, nd = Some dir ->
        rows_at d.2 d.1
        = sort (compare_rows host dir col s.2)
               (rows_at s.2 (displayData s.1))).
Proof.
  intros [Hc Hfr Hp Hpr Hpa Hpn Hda Hdn Hdne Hfn Hperm Hsub Hst Harr Hparr] [Ha Hcells Ho].
  destruct s as [t σ]. cbn [fst snd] in *. subst p.
  destruct nd as [dir|]; cbn [sorted_display fst snd].
  - split; [unfold is_array; by rewrite lookup_insert_eq|].
    split; [intros r; by rewrite insert_array_row_at|].
    split; [done|].
    split; [apply elem_of_dom; rewrite lookup_insert_eq; eauto|].
    split; [apply elem_of_dom; rewrite lookup_insert_ne by done;
            by apply elem_of_dom|].
    split; [unfold rows_at; by rewrite lookup_insert_ne|].
    intros dir' [= <-]. unfold rows_at at 1. by rewrite lookup_insert_eq.
  - split; [apply copy_array_is_array|].
    split; [intros r; by rewrite copy_array_row_at|].
    assert (rows_at (copy_array (processedData t) σ).2 (processedData t)
            = rows_at σ (processedData t)) as E.
    { apply rows_at_extends; [apply copy_array_extends|done]. }
    split; [intros _; by rewrite copy_array_rows, E|].
    split; [apply copy_array_allocated|].
    split; [eapply dom_extends; [apply copy_array_extends|done]|].
    split; [done|]. intros dir' [=].
Qed.

Lemma sortByColumn_more σ0 c p rows0 cells col (s : Table * store) :
  view_ok σ0 c p rows0 s -> view_more cells s ->
  view_more cells (sortByColumn host col s.1 s.2).
Proof.
  intros Hok Hmore.
  pose proof (sorted_display_more σ0 c p rows0 cells
                (next_direction (sortState s.1) col) col s Hok Hmore) as H.
  cbn zeta in H. destruct H as (H1 & H2 & H3 & H4 & H5 & H6 & _).
  destruct s as [t σ]. cbn [fst snd] in *.
  rewrite sortByColumn_eq. cbn zeta.
  set (nd := next_direction (sortState t) col) in *.
  set (d := sorted_display host nd col t σ) in *.
  split; cbn [fst snd displayData processedData sortState].
  - eapply is_array_extends; [apply copy_array_extends|done].
  - intros r. by rewrite copy_array_row_at.
  - intros E. assert (nd = None) as Hnd.
    { destruct nd; [|done]. by inversion E. }
    rewrite !(rows_at_extends d.2 (copy_array d.1 d.2).2)
      by (done || apply copy_array_extends).
    by apply H3.
Qed.

Lemma filterTable_more σ0 c p rows0 cells inputs body (s : Table * store) :
  view_ok σ0 c p rows0 s -> view_more cells s ->
  view_more cells (filterTable inputs body s.1 s.2).
Proof.
  intros [Hc Hfr Hp Hpr Hpa Hpn Hda Hdn Hdne Hfn Hperm Hsub Hst Harr Hparr] [Ha Hcells Ho].
  destruct s as [t σ]. cbn [fst snd] in *. subst p.
  unfold filterTable.
  set (entries := map _ _).
  pose proof (alloc_extends (array_of entries) σ) as He.
  destruct (alloc (array_of entries) σ) as [f σ'] eqn:Ef.
  assert (σ' = (alloc (array_of entries) σ).2) as Hσ' by (by rewrite Ef).
  cbn [fst snd] in *.
  split; cbn [fst snd displayData processedData sortState].
  - by eapply is_array_extends.
  - intros r. rewrite Hσ'. by rewrite alloc_entries_row_at.
  - intros E. rewrite !(rows_at_extends σ σ') by done. by apply Ho.
Qed.

Lemma step_more σ0 c p rows0 cells a (s : Table * store) :
  view_ok σ0 c p rows0 s -> view_more cells s ->
  view_more cells (step host a s).
Proof.
  destruct a; [apply sortByColumn_more|apply filterTable_more].
Qed.

Lemma run_more σ0 c p rows0 cells actions : forall (s : Table * store),
  view_ok σ0 c p rows0 s -> view_more cells s ->
  view_more cells (run host actions s).
Proof.
  induction actions as [|a actions IH]; intros s Hs Hm; [done|].
  apply IH; [by apply step_ok|by eapply step_more].
Qed.

Lemma init_more (t : Table) (σ : store) :
  view_more (row_at (init t σ).2) (init t σ).
Proof.
  pose proof (init_views t σ) as H. cbn zeta in H.
  destruct H as (H1 & H2 & H3 & _).
  split; [done|done|]. intros _. done.
Qed.

Lemma construct_config (c : Config) (σ : store) :
  config (construct c σ).1 = c /\ sortState (construct c σ).1 = inactive.
Proof.
  rewrite construct_eq. cbn zeta.
  set (t := {| config := c |}).
  pose proof (init_views t (alloc (OArray [])
     (alloc (OArray []) (alloc (OArray []) σ).2).2).2) as H.
  cbn zeta in H. destruct H as (_ & _ & _ & H4 & H5 & _). split; done.
Qed.

Lemma construct_more (c : Config) (σ : store) :
  view_more (row_at (construct c σ).2) (construct c σ).
Proof. rewrite construct_eq. cbn zeta. apply init_more. Qed.

(** Every state reached from the constructor has the rows of the first
    state, cell by cell. *)
Lemma reachable_more (c : Config) (σ0 : store) actions :
  view_more (row_at (construct c σ0).2) (run host actions (construct c σ0)).
Proof.
  eapply run_more; [apply construct_ok|apply construct_more].
Qed.

End WithHost.

End ViewFacts2.

Section Lifecycle.
Import Store StoreFacts TableLibrary TableMethods Spec Props.
Import ViewFacts RunFacts ViewFacts2.
Variable host : Host.

(** X4.  The constructor runs the whole pipeline on the raw rows: the
    processed rows are the raw rows with the hidden positions removed and
    then the modification rules applied, the displayed and the filtered
    rows are the same rows in the same order, the processed headings are
    the headings with the hidden positions removed, and no sort is
    active. *)
Theorem construct_pipeline (c : Config) (σ0 : store) :
  let s := construct c σ0 in
  let table := pipeline c (table_at σ0 (config_data c)) in
  table_at s.2 (processedData s.1) = table
  /\ table_at s.2 (displayData s.1) = table
  /\ table_at s.2 (filteredData s.1) = table
  /\ processedHeadings s.1
     = filter_index (kept_position c) (config_headings c)
  /\ sortState s.1 = inactive.
Proof.
  intros s table. subst s table. rewrite construct_eq. cbn zeta.
  set (p := alloc (OArray []) σ0).
  set (f := alloc (OArray []) p.2).
  set (d := alloc (OArray []) f.2).
  set (t := {| config := c |}).
  pose proof (init_views t d.2) as H. cbn zeta in H.
  destruct H as (H1 & H2 & H3 & H4 & H5 & H6 & H7).
  assert (table_at d.2 (config_data c) = table_at σ0 (config_data c)) as E.
  { apply table_at_eq.
    - subst d f p. by rewrite !alloc_empty_rows_at.
    - intros r. subst d f p. by rewrite !alloc_array_row_at. }
  change (config t) with c in *. rewrite E in H7.
  unfold table_at in *. rewrite H1, H2. done.
Qed.

(** X5.  In every state reached from the constructor, the row that the
    handlers of the action buttons and check boxes hand to the user
    function for a row index, and the row [getCheckedRows] reports for a
    checked index, is the row of [processedData] at that index, which is
    the row at that index in the order set at initialization; while no
    sort is active this is the row displayed at that index. *)
Theorem checked_rows (c : Config) (σ0 : store) (actions : list action)
        (checked : list nat) :
  let s0 := construct c σ0 in
  let s := run host actions s0 in
  (forall i, rowData i s.1 s.2 = rows_at s0.2 (processedData s0.1) !! i)
  /\ getCheckedRows checked s.1 s.2
     = map (fun i => (i, rows_at s0.2 (processedData s0.1) !! i)) checked
  /\ (sortState s.1 = inactive ->
      (forall i, rowData i s.1 s.2 = rows_at s.2 (displayData s.1) !! i)
      /\ getCheckedRows checked s.1 s.2
         = map (fun i => (i, rows_at s.2 (displayData s.1) !! i)) checked).
Proof.
  intros s0 s.
  pose proof (reachable_ok host c σ0 actions) as Hok. fold s0 s in Hok.
  pose proof (reachable_more host c σ0 actions) as Hm. fold s0 s in Hm.
  assert (forall i, rowData i s.1 s.2 = rows_at s0.2 (processedData s0.1) !! i)
    as Hrow.
  { intros i. unfold rowData.
    rewrite (ok_processed _ _ _ _ _ Hok).
    rewrite element_array by apply (ok_processed_array _ _ _ _ _ Hok).
    by rewrite (ok_processed_rows _ _ _ _ _ Hok). }
  assert (rows_at s.2 (processedData s.1) = rows_at s0.2 (processedData s0.1))
    as Hp.
  { by rewrite (ok_processed _ _ _ _ _ Hok), (ok_processed_rows _ _ _ _ _ Hok). }
  unfold getCheckedRows. split; [done|]. split.
  - apply map_ext. intros i. by rewrite Hrow.
  - intros E. rewrite (more_order _ _ Hm E), Hp. split; [done|].
    apply map_ext. intros i. by rewrite Hrow.
Qed.


End Lifecycle.

(* ===================================================================== *)
(** * Facts about strings *)
(* ===================================================================== *)

Module StringFacts.
Import JsString CellFacts CsvFacts.

Lemma is_space_lower_char c : is_space (lower_char c) = is_space c.
Proof. by destruct c as [[] [] [] [] [] [] [] []]. Qed.

Lemma toLowerCase_trim_start s :
  toLowerCase (trim_start s) = trim_start (toLowerCase s).
Proof.
  induction s as [|c s IH]; [done|]. cbn [trim_start toLowerCase].
  rewrite is_space_lower_char. by destruct (is_space c).
Qed.

Lemma toLowerCase_rev_append s : forall acc,
  toLowerCase (rev_append s acc) = rev_append (toLowerCase s) (toLowerCase acc).
Proof.
  induction s as [|c s IH]; intros acc; [done|].
  cbn [rev_append toLowerCase]. by rewrite IH.
Qed.

Lemma toLowerCase_trim s : toLowerCase (trim s) = trim (toLowerCase s).
Proof.
  unfold trim, rev.
  rewrite toLowerCase_rev_append, toLowerCase_trim_start.
  by rewrite toLowerCase_rev_append, toLowerCase_trim_start.
Qed.

Lemma starts_with_spec p : forall s,
  starts_with p s = true <-> exists post, s = p +:+ post.
Proof.
  induction p as [|a p IH]; intros s.
  - split; [intros _; by exists s|by destruct s].
  - destruct s as [|b s]; cbn [starts_with].
    + split; [done|]. by intros [post E].
    + destruct (Ascii.eqb_spec a b) as [->|Hne].
      * rewrite IH. split; intros [post E]; exists post.
        -- by rewrite app_cons, <- E.
        -- rewrite app_cons in E. by injection E.
      * split; [done|]. intros [post E]. rewrite app_cons in E.
        injection E as E1 E2. by destruct Hne.
Qed.

Lemma includes_spec p : forall s,
  includes s p = true <-> exists pre post, s = pre +:+ p +:+ post.
Proof.
  induction s as [|c s IH].
  - cbn [includes]. rewrite orb_false_r, starts_with_spec. split.
    + intros [post E]. by exists "", post.
    + intros [pre [post E]]. destruct pre; [by exists post|].
      by rewrite app_cons in E.
  - cbn [includes]. rewrite orb_true_iff, starts_with_spec, IH. split.
    + intros [[post E]|[pre [post E]]].
      * by exists "", post.
      * exists (String c pre), post. by rewrite app_cons, <- E.
    + intros [pre [post E]]. destruct pre as [|c' pre].
      * left. by exists post.
      * right. exists pre, post. rewrite app_cons in E. by injection E.
Qed.

Lemma includes_trans s p q :
  includes s p = true -> includes p q = true -> includes s q = true.
Proof.
  rewrite !includes_spec. intros [pre [post ->]] [pre' [post' ->]].
  exists (pre +:+ pre'), (post' +:+ post).
  by rewrite !append_assoc.
Qed.

Lemma includes_empty p : includes "" p = true -> p = "".
Proof. cbn [includes]. rewrite orb_false_r. by destruct p. Qed.

End StringFacts.

(* ===================================================================== *)
(** * Facts about the filter *)
(* ===================================================================== *)

Module FilterFacts.
Import JsValue Store StoreFacts TableLibrary TableMethods Spec Props.
Import ListFacts ViewFacts RunFacts ViewFacts2 StringFacts.

Lemma filter_all {A} (P : A -> bool) (l : list A) :
  (forall x, In x l -> P x = true) -> List.filter P l = l.
Proof.
  induction l as [|x l IH]; intros H; [done|]. cbn [List.filter].
  rewrite (H x) by by left. f_equal. apply IH. intros y Hy. apply H. by right.
Qed.

Lemma filter_none {A} (P : A -> bool) (l : list A) :
  (forall x, In x l -> P x = false) -> List.filter P l = [].
Proof.
  induction l as [|x l IH]; intros H; [done|]. cbn [List.filter].
  rewrite (H x) by by left. apply IH. intros y Hy. apply H. by right.
Qed.

Lemma filter_mono_sublist {A} (P Q : A -> bool) (l : list A) :
  (forall x, P x = true -> Q x = true) ->
  List.filter P l `sublist_of` List.filter Q l.
Proof.
  intros H. induction l as [|x l IH]; [done|]. cbn [List.filter].
  destruct (P x) eqn:E.
  - rewrite (H x E). by constructor.
  - destruct (Q x); [by constructor|done].
Qed.

Lemma accepts_pointwise (R : string -> string -> Prop)
      (l1 l2 : list string) :
  Forall2 R l1 l2 ->
  forall (f g : nat -> string -> bool),
  (forall i a b, R a b -> g i b = true -> f i a = true) ->
  forallb (fun ok : bool => ok) (imap g l2) = true ->
  forallb (fun ok : bool => ok) (imap f l1) = true.
Proof.
  induction 1 as [|a b l1 l2 Hab _ IH]; intros f' g' H; [done|].
  cbn [imap forallb]. rewrite !andb_true_iff. intros [H1 H2]. split.
  - by eapply H.
  - eapply IH; [|exact H2]. intros i x y. apply H.
Qed.

Lemma accepts_all (f : nat -> string -> bool) (l : list string) :
  (forall i a, In a l -> f i a = true) ->
  forallb (fun ok : bool => ok) (imap f l) = true.
Proof.
  revert f. induction l as [|x l IH]; intros f H; [done|].
  cbn [imap forallb]. rewrite (H 0%nat x) by by left.
  apply IH. intros i a Ha. apply H. by right.
Qed.

(** What [filterTable] leaves behind. *)
Lemma filterTable_entries inputs body (t : Table) (σ : store) :
  let s := filterTable inputs body t σ in
  entries_at s.2 (filteredData s.1)
  = map (fun index => element σ (displayData t) index)
        (visibleRowIndexes inputs body)
  /\ displayData s.1 = displayData t
  /\ (forall r, row_at s.2 r = row_at σ r)
  /\ (σ ⊆ s.2).
Proof.
  intros s. subst s. unfold filterTable.
  set (entries := map _ _).
  pose proof (alloc_extends (array_of entries) σ) as He.
  pose proof (array_of_entries entries σ) as Hl.
  pose proof (alloc_entries_row_at entries σ) as Hr.
  destruct (alloc (array_of entries) σ) as [f σ'].
  by cbn [fst snd filteredData displayData] in *.
Qed.

Lemma element_extends (σ σ' : store) l index :
  σ ⊆ σ' -> l ∈ dom σ -> element σ' l index = element σ l index.
Proof.
  intros Hsub Hl. unfold element. by rewrite (entries_at_extends σ σ').
Qed.

Lemma needle_blank input : blank input = true -> needle input = "".
Proof. unfold blank. by intros ->%String.eqb_eq. Qed.

Lemma input_accepts_needle row i input :
  input_accepts row i input
  = if String.eqb (needle input) "" then true
    else JsString.includes (cell_text row i) (needle input).
Proof. done. Qed.

Lemma visible_blank inputs row :
  forallb blank inputs = true -> visible inputs row = true.
Proof.
  intros H. apply accepts_all. intros i a Ha.
  rewrite forallb_forall in H. rewrite input_accepts_needle.
  by rewrite (needle_blank _ (H a Ha)).
Qed.

(** With blank inputs every row of the body is visible. *)
Lemma visibleRowIndexes_blank inputs body :
  forallb blank inputs = true ->
  visibleRowIndexes inputs body = seq 0 (length body).
Proof.
  intros H. unfold visibleRowIndexes. apply filter_all.
  intros i Hi. apply in_seq in Hi.
  destruct (lookup_lt_is_Some_2 body i) as [row Hrow]; [lia|].
  rewrite Hrow. by apply visible_blank.
Qed.

Lemma lookups_all {A} (l : list A) :
  map (fun i => l !! i) (seq 0 (length l)) = map Some l.
Proof.
  rewrite lookups_defined.
  - by rewrite omap_lookup_take, take_ge.
  - apply List.Forall_forall. intros i Hi. apply in_seq in Hi. lia.
Qed.

Lemma needle_letters a b :
  JsString.toLowerCase a = JsString.toLowerCase b -> needle a = needle b.
Proof.
  intros E. unfold needle. by rewrite !toLowerCase_trim, E.
Qed.

Lemma imap_letters (inputs1 : list string) :
  forall (f : nat -> string -> bool) (inputs2 : list string),
  (forall i a b, JsString.toLowerCase a = JsString.toLowerCase b ->
                 f i a = f i b) ->
  map JsString.toLowerCase inputs1 = map JsString.toLowerCase inputs2 ->
  imap f inputs1 = imap f inputs2.
Proof.
  induction inputs1 as [|a l IH]; intros f' [|b l2] H E; try done.
  injection E as E1 E2. cbn [imap]. f_equal; [by apply H|].
  apply IH; [|done]. intros i x y. apply H.
Qed.

Lemma visible_letters inputs1 inputs2 row :
  map JsString.toLowerCase inputs1 = map JsString.toLowerCase inputs2 ->
  visible inputs1 row = visible inputs2 row.
Proof.
  intros E. unfold visible. f_equal. apply imap_letters; [|done].
  intros i a b Hab. rewrite !input_accepts_needle.
  by rewrite (needle_letters a b Hab).
Qed.

Lemma narrows_spec inputs1 : forall inputs2,
  narrows inputs1 inputs2 = true ->
  Forall2 (fun a b => JsString.includes (needle b) (needle a) = true)
          inputs1 inputs2.
Proof.
  induction inputs1 as [|a l IH]; intros [|b l2] H; try done.
  cbn [narrows] in H. apply andb_true_iff in H as [H1 H2].
  constructor; [done|by apply IH].
Qed.

Lemma input_accepts_narrows row i a b :
  JsString.includes (needle b) (needle a) = true ->
  input_accepts row i b = true -> input_accepts row i a = true.
Proof.
  intros Hn. rewrite !input_accepts_needle.
  destruct (String.eqb_spec (needle a) "") as [|Ha]; [done|].
  destruct (String.eqb_spec (needle b) "") as [Hb|Hb].
  - rewrite Hb in Hn. by apply includes_empty in Hn.
  - intros H. by eapply includes_trans.
Qed.

Lemma visible_narrows inputs1 inputs2 row :
  narrows inputs1 inputs2 = true ->
  visible inputs2 row = true -> visible inputs1 row = true.
Proof.
  intros H%narrows_spec. unfold visible.
  eapply accepts_pointwise; [exact H|].
  intros i a b. apply input_accepts_narrows.
Qed.

Lemma visibleRowIndexes_narrows inputs1 inputs2 body :
  narrows inputs1 inputs2 = true ->
  visibleRowIndexes inputs2 body `sublist_of` visibleRowIndexes inputs1 body.
Proof.
  intros H. unfold visibleRowIndexes. apply filter_mono_sublist.
  intros i. destruct (body !! i); [|done]. by apply visible_narrows.
Qed.

End FilterFacts.

Section Filtering.
Import JsValue Store StoreFacts TableLibrary TableMethods Spec Props.
Import ListFacts ViewFacts RunFacts ViewFacts2 StringFacts FilterFacts.
Variable host : Host.

(** X7.  Filters do not accumulate: in every state reached from the
    constructor, a run of [filterTable] after another run of it leaves in
    [filteredData] the elements that it leaves when run alone on the same
    inputs and the same table body, whatever the inputs and the body of
    the earlier run were; and neither run changes [displayData] or its
    rows. *)
Theorem filter_replaces (c : Config) (σ0 : store) (actions : list action)
        (inputs1 inputs2 : list string) (body1 body2 : list (list string)) :
  let s := run host actions (construct c σ0) in
  let a := filterTable inputs1 body1 s.1 s.2 in
  let b := filterTable inputs2 body2 a.1 a.2 in
  let b' := filterTable inputs2 body2 s.1 s.2 in
  entries_at b.2 (filteredData b.1) = entries_at b'.2 (filteredData b'.1)
  /\ displayData b.1 = displayData s.1
  /\ rows_at b.2 (displayData b.1) = rows_at s.2 (displayData s.1).
Proof.
  intros s a b b'.
  pose proof (reachable_ok host c σ0 actions) as Hok. fold s in Hok.
  pose proof (ok_display_alloc _ _ _ _ _ Hok) as Hd.
  destruct (filterTable_entries inputs1 body1 s.1 s.2) as (A1 & A2 & A3 & A4).
  fold a in A1, A2, A3, A4.
  destruct (filterTable_entries inputs2 body2 a.1 a.2) as (B1 & B2 & B3 & B4).
  fold b in B1, B2, B3, B4.
  destruct (filterTable_entries inputs2 body2 s.1 s.2) as (C1 & _).
  fold b' in C1.
  assert (displayData s.1 ∈ dom a.2) as Hda by (by eapply dom_extends).
  split; [|split].
  - rewrite B1, C1, A2. apply map_ext. intros i. by apply element_extends.
  - by rewrite B2, A2.
  - rewrite B2, A2. rewrite (rows_at_extends a.2 b.2) by done.
    by rewrite (rows_at_extends s.2 a.2).
Qed.

(** X8.  With every filter input empty or white space only, in every
    state reached from the constructor, [filterTable] puts one element
    into [filteredData] for every row of the table body: the element of
    [displayData] at the index of the row.  When the body has one row for
    each row of [displayData], [filteredData] then holds all the rows of
    [displayData], in display order. *)
Theorem filter_blank (c : Config) (σ0 : store) (actions : list action)
        (inputs : list string) (body : list (list string)) :
  forallb blank inputs = true ->
  let s := run host actions (construct c σ0) in
  let s' := filterTable inputs body s.1 s.2 in
  entries_at s'.2 (filteredData s'.1)
  = map (fun index => rows_at s.2 (displayData s.1) !! index)
        (seq 0 (length body))
  /\ rows_at s'.2 (displayData s'.1) = rows_at s.2 (displayData s.1)
  /\ (length body = length (rows_at s.2 (displayData s.1)) ->
      entries_at s'.2 (filteredData s'.1)
      = map Some (rows_at s'.2 (displayData s'.1))
      /\ rows_at s'.2 (filteredData s'.1) = rows_at s'.2 (displayData s'.1)).
Proof.
  intros H s s'.
  pose proof (reachable_ok host c σ0 actions) as Hok. fold s in Hok.
  pose proof (ok_display_alloc _ _ _ _ _ Hok) as Hd.
  pose proof (ok_display_array _ _ _ _ _ Hok) as Harr.
  destruct (filterTable_entries inputs body s.1 s.2) as (A1 & A2 & A3 & A4).
  fold s' in A1, A2, A3, A4.
  assert (entries_at s'.2 (filteredData s'.1)
          = map (fun index => rows_at s.2 (displayData s.1) !! index)
                (seq 0 (length body))) as E.
  { rewrite A1, (visibleRowIndexes_blank _ _ H). apply map_ext.
    intros i. by apply element_array. }
  assert (rows_at s'.2 (displayData s'.1) = rows_at s.2 (displayData s.1))
    as Hrows by (rewrite A2; by apply rows_at_extends).
  split; [done|]. split; [done|]. intros Hlen.
  destruct (filterTable_fits inputs body s.1 s.2 Harr) as [Hf Hr]; [lia|].
  fold s' in Hf, Hr.
  assert (rows_at s'.2 (filteredData s'.1) = rows_at s'.2 (displayData s'.1))
    as Hall.
  { rewrite Hr, Hrows, (visibleRowIndexes_blank _ _ H), Hlen.
    by rewrite omap_lookup_take, take_ge. }
  split; [|done]. rewrite <- Hall. by apply entries_of_array.
Qed.

(** X9.  The filter ignores the case of the letters of its inputs: two
    lists of inputs that agree after [toLowerCase] give the same result
    of [filterTable] on every table body, table and store. *)
Theorem filter_ignores_case (inputs1 inputs2 : list string)
        (body : list (list string)) (t : Table) (σ : store) :
  map JsString.toLowerCase inputs1 = map JsString.toLowerCase inputs2 ->
  filterTable inputs1 body t σ = filterTable inputs2 body t σ.
Proof.
  intros E. unfold filterTable, visibleRowIndexes.
  rewrite (filter_ext _
    (fun index =>
       match body !! index with
       | Some row => visible inputs2 row
       | None => false
       end)); [done|].
  intros i. destruct (body !! i); [|done].
  by apply visible_letters.
Qed.

(** X10.  Narrowing the inputs narrows the result: when, input by input,
    the text searched for by the first list occurs in the text searched
    for by the second list, then on every table body, table and store
    the elements that [filterTable] puts into [filteredData] for the
    second list are a subsequence of those it puts there for the first
    list. *)
Theorem filter_narrows (inputs1 inputs2 : list string)
        (body : list (list string)) (t : Table) (σ : store) :
  narrows inputs1 inputs2 = true ->
  let a := filterTable inputs1 body t σ in
  let b := filterTable inputs2 body t σ in
  entries_at b.2 (filteredData b.1)
  `sublist_of` entries_at a.2 (filteredData a.1).
Proof.
  intros H a b.
  destruct (filterTable_entries inputs1 body t σ) as (A1 & _).
  destruct (filterTable_entries inputs2 body t σ) as (B1 & _).
  fold a in A1. fold b in B1. rewrite A1, B1.
  apply map_sublist. by apply visibleRowIndexes_narrows.
Qed.

End Filtering.

(* ===================================================================== *)
(** * Facts about the sort *)
(* ===================================================================== *)

Module SortFacts.
Import JsValue Store StoreFacts TableLibrary TableMethods Spec Props.
Import ListFacts ViewFacts RunFacts ViewFacts2.

Section Comparator.
Context {A : Type} (cmp : A -> A -> comparison).

Lemma consistent_on_total (l : list A) a b :
  consistent_on cmp l = true -> In a l -> In b l ->
  in_order cmp a b = true \/ in_order cmp b a = true.
Proof.
  unfold consistent_on. rewrite forallb_forall. intros H Ha Hb.
  specialize (H a Ha). rewrite forallb_forall in H. specialize (H b Hb).
  apply andb_true_iff in H as [H _]. by apply orb_true_iff.
Qed.

Lemma consistent_on_trans (l : list A) a b c :
  consistent_on cmp l = true -> In a l -> In b l -> In c l ->
  in_order cmp a b = true -> in_order cmp b c = true ->
  in_order cmp a c = true.
Proof.
  unfold consistent_on. rewrite forallb_forall. intros H Ha Hb Hc Hab Hbc.
  specialize (H a Ha). rewrite forallb_forall in H. specialize (H b Hb).
  apply andb_true_iff in H as [_ H]. rewrite forallb_forall in H.
  specialize (H c Hc). by rewrite Hab, Hbc in H.
Qed.

Lemma in_insert_sorted x y (l : list A) :
  In y (insert_sorted cmp x l) -> y = x \/ In y l.
Proof.
  intros H. apply (Permutation_in _ (insert_sorted_perm cmp x l)) in H.
  destruct H as [->|H]; [by left|by right].
Qed.

Lemma in_sort y (l : list A) : In y (sort cmp l) <-> In y l.
Proof.
  split; apply Permutation_in; [|symmetry]; apply sort_perm.
Qed.

Lemma insert_sorted_ordered (k : list A) x (l : list A) :
  consistent_on cmp k = true -> In x k -> (forall y, In y l -> In y k) ->
  ordered cmp l = true -> ordered cmp (insert_sorted cmp x l) = true.
Proof.
  intros Hk Hx. induction l as [|y l IH]; intros Hl Ho; [done|].
  cbn [ordered] in Ho. apply andb_true_iff in Ho as [Hy Ho].
  rewrite forallb_forall in Hy.
  assert (In y k) as Hyk by (apply Hl; by left).
  cbn [insert_sorted]. destruct (cmp x y) eqn:E.
  1,2: cbn [ordered]; apply andb_true_iff; split;
       [|cbn [ordered]; apply andb_true_iff; split;
          [by apply forallb_forall|done]];
       apply forallb_forall; intros z [<-|Hz];
       [unfold in_order; by rewrite E
       |apply (consistent_on_trans k x y z); try done;
        [apply Hl; by right|unfold in_order; by rewrite E|by apply Hy]].
  cbn [ordered]. apply andb_true_iff. split.
  - apply forallb_forall. intros z [->|Hz]%in_insert_sorted; [|by apply Hy].
    destruct (consistent_on_total k x y Hk Hx Hyk) as [H|H]; [|done].
    unfold in_order in H. by rewrite E in H.
  - apply IH; [|done]. intros z Hz. apply Hl. by right.
Qed.

(** The sort of a list on which the comparator is consistent is
    ordered. *)
Lemma sort_ordered (k l : list A) :
  consistent_on cmp k = true -> (forall y, In y l -> In y k) ->
  ordered cmp (sort cmp l) = true.
Proof.
  intros Hk. induction l as [|x l IH]; intros Hl; [done|].
  cbn [sort foldr]. fold (sort cmp l).
  apply (insert_sorted_ordered k).
  - done.
  - apply Hl. by left.
  - intros y Hy. apply (proj1 (in_sort y l)) in Hy. apply Hl. by right.
  - apply IH. intros y Hy. apply Hl. by right.
Qed.

(** The sort leaves an ordered list as it is. *)
Lemma sort_ordered_same (l : list A) :
  ordered cmp l = true -> sort cmp l = l.
Proof.
  induction l as [|x l IH]; [done|]. cbn [ordered]. intros [Hx Ho]%andb_true_iff.
  cbn [sort foldr]. fold (sort cmp l). rewrite (IH Ho).
  destruct l as [|y l]; [done|]. cbn [insert_sorted].
  cbn [forallb] in Hx. apply andb_true_iff in Hx as [Hx _].
  unfold in_order in Hx. by destruct (cmp x y).
Qed.

Lemma ordered_sublist (l1 l2 : list A) :
  l1 `sublist_of` l2 -> ordered cmp l2 = true -> ordered cmp l1 = true.
Proof.
  induction 1 as [|x l1 l2 Hs IH|x l1 l2 Hs IH]; [done| |].
  - cbn [ordered]. intros [Hx Ho]%andb_true_iff. apply andb_true_iff.
    split; [|by apply IH]. rewrite forallb_forall in *. intros y Hy.
    apply Hx. by eapply sublist_In.
  - cbn [ordered]. intros [_ Ho]%andb_true_iff. by apply IH.
Qed.

End Comparator.

Lemma insert_sorted_map {A B} (f : A -> B) (cmp : B -> B -> comparison) x
      (l : list A) :
  map f (insert_sorted (fun a b => cmp (f a) (f b)) x l)
  = insert_sorted cmp (f x) (map f l).
Proof.
  induction l as [|y l IH]; [done|]. cbn [insert_sorted map].
  destruct (cmp (f x) (f y)); try done. cbn [map]. by rewrite IH.
Qed.

Lemma sort_map {A B} (f : A -> B) (cmp : B -> B -> comparison) (l : list A) :
  map f (sort (fun a b => cmp (f a) (f b)) l) = sort cmp (map f l).
Proof.
  induction l as [|x l IH]; [done|]. cbn [sort foldr map].
  fold (sort (fun a b => cmp (f a) (f b)) l). fold (sort cmp (map f l)).
  by rewrite insert_sorted_map, IH.
Qed.

Lemma in_order_map {A B} (f : A -> B) (cmp : B -> B -> comparison) x
      (l : list A) :
  forallb (in_order (fun a b => cmp (f a) (f b)) x) l
  = forallb (in_order cmp (f x)) (map f l).
Proof.
  induction l as [|y l IH]; [done|]. cbn [forallb map]. by rewrite IH.
Qed.

Lemma ordered_map {A B} (f : A -> B) (cmp : B -> B -> comparison) (l : list A) :
  ordered (fun a b => cmp (f a) (f b)) l = ordered cmp (map f l).
Proof.
  induction l as [|x l IH]; [done|]. cbn [ordered map].
  by rewrite IH, in_order_map.
Qed.

Section WithHost.
Variable host : Host.

(** The rows of the display array after a sort request that sets a
    direction. *)
Lemma sortByColumn_sorted σ0 c p rows0 cells col dir (s : Table * store) :
  view_ok σ0 c p rows0 s -> view_more cells s ->
  next_direction (sortState s.1) col = Some dir ->
  let s' := sortByColumn host col s.1 s.2 in
  rows_at s'.2 (displayData s'.1)
  = sort (compare_rows host dir col s.2) (rows_at s.2 (displayData s.1))
  /\ table_at s'.2 (displayData s'.1)
     = sort (compareFn host dir col) (table_at s.2 (displayData s.1))
  /\ rows_at s'.2 (filteredData s'.1) = rows_at s'.2 (displayData s'.1).
Proof.
  intros Hok Hmore Hnd s'.
  pose proof (sorted_display_more host σ0 c p rows0 cells
                (next_direction (sortState s.1) col) col s Hok Hmore) as H.
  cbn zeta in H. destruct H as (H1 & H2 & H3 & H4 & H5 & H6 & H7).
  pose proof (sortByColumn_more host σ0 c p rows0 cells col s Hok Hmore) as Hm'.
  fold s' in Hm'.
  assert (rows_at s'.2 (displayData s'.1)
          = sort (compare_rows host dir col s.2)
                 (rows_at s.2 (displayData s.1))
          /\ rows_at s'.2 (filteredData s'.1) = rows_at s'.2 (displayData s'.1))
    as [E E'].
  { subst s'. destruct s as [t σ]. cbn [fst snd] in *.
    rewrite sortByColumn_eq. cbn zeta. cbn [fst snd displayData filteredData].
    set (d := sorted_display host _ col t σ) in *.
    rewrite (rows_at_extends d.2 (copy_array d.1 d.2).2)
      by (done || apply copy_array_extends).
    split; [by apply H7|]. by rewrite copy_array_rows. }
  split; [done|]. split; [|done].
  unfold table_at. rewrite E.
  rewrite (map_ext (row_at s'.2) (row_at s.2)).
  2: { intros r. rewrite (more_cells _ _ Hm'). symmetry.
       apply (more_cells _ _ Hmore). }
  apply (sort_map (row_at s.2) (compareFn host dir col)).
Qed.

End WithHost.
End SortFacts.

Section Ordering.
Import JsValue Store StoreFacts TableLibrary TableMethods Spec Props.
Import ListFacts ViewFacts RunFacts ViewFacts2 FilterFacts SortFacts.
Variable host : Host.

(** X12.  When the comparator of a column and a direction is consistent
    on the rows of the table (any two rows are comparable, and the order
    is transitive), then in every state reached from the constructor by
    sort and filter actions whose sort state is that column and
    direction, the displayed rows are in the order of the comparator, and
    so are the elements of [filteredData] that are rows. *)
Theorem sorted_rows_ordered (c : Config) (σ0 : store)
        (actions : list action) (col : nat) (d : Direction) :
  let s0 := construct c σ0 in
  let s := run host actions s0 in
  consistent_on (compareFn host d col) (table_at s0.2 (processedData s0.1))
  = true ->
  sortState s.1 = active col d ->
  ordered (compareFn host d col) (table_at s.2 (displayData s.1)) = true
  /\ ordered (compareFn host d col)
             (map (row_at s.2) (defined_rows s.2 (filteredData s.1))) = true.
Proof.
  intros s0 s Hcons Hact.
  assert (ordered (compareFn host d col) (table_at s.2 (displayData s.1))
          = true) as Hd.
  { subst s. revert Hact. induction actions as [|a prefix IH] using rev_ind.
    - cbn [run fold_left]. subst s0.
      destruct (construct_config c σ0) as [_ ->]. done.
    - unfold run. rewrite fold_left_app. cbn [fold_left].
      fold (run host prefix s0). set (s := run host prefix s0) in *.
      pose proof (reachable_ok host c σ0 prefix) as Hok. fold s0 s in Hok.
      pose proof (reachable_more host c σ0 prefix) as Hm. fold s0 s in Hm.
      destruct a as [col'|inputs body]; cbn [step].
      + intros Hact.
        assert (next_direction (sortState s.1) col' = Some d /\ col' = col)
          as [Hnd ->].
        { rewrite (surjective_pairing s) in Hact.
          rewrite sortByColumn_eq in Hact. cbn zeta in Hact.
          cbn [fst snd sortState] in Hact.
          destruct (next_direction (sortState s.1) col'); [|done].
          by inversion Hact. }
        destruct (sortByColumn_sorted host _ _ _ _ _ col d s Hok Hm Hnd)
          as (_ & -> & _).
        apply (sort_ordered _ (table_at s0.2 (processedData s0.1))); [done|].
        intros y Hy. unfold table_at in *.
        rewrite (map_ext (row_at s.2) (row_at s0.2)) in Hy
          by apply (more_cells _ _ Hm).
        eapply Permutation_in; [|exact Hy]. apply Permutation_map.
        apply (ok_perm _ _ _ _ _ Hok).
      + intros Hact.
        destruct (filterTable_entries inputs body s.1 s.2)
          as (_ & H2 & H3 & H4).
        assert (sortState (filterTable inputs body s.1 s.2).1 = sortState s.1)
          as Hst.
        { unfold filterTable. by destruct (alloc _ _). }
        rewrite Hst in Hact. specialize (IH Hact).
        rewrite H2. rewrite (table_at_eq s.2); [done| |done].
        apply rows_at_extends; [done|apply (ok_display_alloc _ _ _ _ _ Hok)]. }
  split; [done|].
  pose proof (reachable_ok host c σ0 actions) as Hok. fold s0 s in Hok.
  eapply ordered_sublist; [|exact Hd].
  unfold table_at. apply map_sublist. apply (ok_sub _ _ _ _ _ Hok).
Qed.

(** X13.  A sort request that sets a direction leaves the displayed rows
    as they are when they are already in the order of the comparator of
    that column and direction: rows that compare equal are not
    exchanged. *)
Theorem sort_keeps_ordered_rows (c : Config) (σ0 : store)
        (actions : list action) (col : nat) (d : Direction) :
  let s := run host actions (construct c σ0) in
  let s' := sortByColumn host col s.1 s.2 in
  next_direction (sortState s.1) col = Some d ->
  ordered (compareFn host d col) (table_at s.2 (displayData s.1)) = true ->
  rows_at s'.2 (displayData s'.1) = rows_at s.2 (displayData s.1)
  /\ rows_at s'.2 (filteredData s'.1) = rows_at s.2 (displayData s.1).
Proof.
  intros s s' Hnd Ho.
  pose proof (reachable_ok host c σ0 actions) as Hok. fold s in Hok.
  pose proof (reachable_more host c σ0 actions) as Hm. fold s in Hm.
  destruct (sortByColumn_sorted host _ _ _ _ _ col d s Hok Hm Hnd)
    as (E & _ & E'). fold s' in E, E'.
  assert (rows_at s'.2 (displayData s'.1) = rows_at s.2 (displayData s.1))
    as H.
  { rewrite E. apply sort_ordered_same. unfold compare_rows.
    by rewrite (ordered_map (row_at s.2) (compareFn host d col)). }
  split; [done|]. by rewrite E', H.
Qed.

End Ordering.

Section Metrics.
Import JsValue Store StoreFacts TableLibrary TableMethods Spec Props.
Import ListFacts ViewFacts RunFacts ViewFacts2 FilterFacts SortFacts.
Variable host : Host.

(** X11.  In every state reached from the constructor by sort and filter
    actions, [isNumericColumn] gives for a column what it gave right
    after the constructor, when the header was written; and for a column
    where it gave false, [calculateMetric] returns the empty string for
    every metric, unless an element of [filteredData] is [undefined],
    when it ends in a TypeError. *)
Theorem metric_of_column_without_numbers (c : Config) (σ0 : store)
        (actions : list action) (col : nat) :
  let s0 := construct c σ0 in
  let s := run host actions s0 in
  isNumericColumn s.1 col s.2 = isNumericColumn s0.1 col s0.2
  /\ (isNumericColumn s0.1 col s0.2 = false ->
      forall type,
        calculateMetric s.1 col type s.2
        = option_map (fun _ => "") (rows_of s.2 (filteredData s.1))).
Proof.
  intros s0 s.
  pose proof (reachable_ok host c σ0 actions) as Hok. fold s0 s in Hok.
  pose proof (reachable_more host c σ0 actions) as Hm. fold s0 s in Hm.
  assert (table_at s.2 (processedData s.1) = table_at s0.2 (processedData s0.1))
    as Ht.
  { unfold table_at.
    rewrite (ok_processed _ _ _ _ _ Hok), (ok_processed_rows _ _ _ _ _ Hok).
    apply map_ext, (more_cells _ _ Hm). }
  split; [unfold isNumericColumn; by rewrite Ht|].
  unfold isNumericColumn. intros Hnone type.
  assert (forall row, In row (table_at s0.2 (processedData s0.1)) ->
                      is_numeric (cell_at row col) = false) as Hrows.
  { intros row Hrow. destruct (is_numeric (cell_at row col)) eqn:E; [|done].
    assert (existsb (fun row => is_numeric (cell_at row col))
                    (table_at s0.2 (processedData s0.1)) = true) as Hex.
    { apply existsb_exists. by exists row. }
    by rewrite Hex in Hnone. }
  unfold calculateMetric.
  destruct (rows_of s.2 (filteredData s.1)) as [filtered|] eqn:Ef; [|done].
  cbn [option_map]. f_equal.
  pose proof (ok_sub _ _ _ _ _ Hok) as Hsub.
  rewrite (rows_of_defined _ _ _ Ef) in Hsub.
  unfold column_numbers. rewrite filter_none; [done|].
  intros v [row [<- Hrow]]%in_map_iff. apply Hrows.
  unfold table_at in *.
  rewrite (map_ext (row_at s.2) (row_at s0.2)) in Hrow
    by apply (more_cells _ _ Hm).
  eapply Permutation_in;
    [apply Permutation_map, (ok_perm _ _ _ _ _ Hok)|].
  eapply sublist_In; [apply map_sublist, Hsub|exact Hrow].
Qed.

End Metrics.

(* ===================================================================== *)
(** * Facts about hiding one column *)
(* ===================================================================== *)

Module HideOneFacts.
Import Store StoreFacts TableLibrary Spec Props HideFacts.

Lemma filter_from_all {A} (keep : nat -> bool) (l : list A) : forall i,
  (forall j, keep j = true) -> filter_from keep i l = l.
Proof.
  induction l as [|x l IH]; intros i H; [done|].
  cbn [filter_from]. by rewrite H, IH.
Qed.

Lemma filter_from_one {A} (z : Z) (l : list A) : forall i,
  0 <= z ->
  filter_from (fun j => negb (includes [z] j)) i l
  = if z <? Z.of_nat i then l else delete (Z.to_nat z - i)%nat l.
Proof.
  induction l as [|x l IH]; intros i Hz.
  - by destruct (z <? Z.of_nat i).
  - cbn [filter_from]. rewrite (IH (S i) Hz).
    unfold includes. cbn [existsb]. rewrite orb_false_r.
    destruct (Z.eqb_spec (Z.of_nat i) z) as [E|E].
    + cbn [negb].
      destruct (Z.ltb_spec z (Z.of_nat (S i))); [|lia].
      destruct (Z.ltb_spec z (Z.of_nat i)); [lia|].
      by replace (Z.to_nat z - i)%nat with 0%nat by lia.
    + cbn [negb].
      destruct (Z.ltb_spec z (Z.of_nat (S i)));
        destruct (Z.ltb_spec z (Z.of_nat i)); try lia; [done|].
      replace (Z.to_nat z - i)%nat with (S (Z.to_nat z - S i)) by lia.
      done.
Qed.

Lemma indexOf_from_spec label (l : list string) : forall i,
  let k := indexOf_from i label l in
  (k < 0 <-> ~ In label l)
  /\ (0 <= k ->
      Z.of_nat i <= k
      /\ l !! (Z.to_nat k - i)%nat = Some label
      /\ forall j, (j < Z.to_nat k - i)%nat -> l !! j <> Some label).
Proof.
  induction l as [|h l IH]; intros i; cbn zeta; cbn [indexOf_from].
  - split; [split; [by intros _ []|lia]|lia].
  - destruct (String.eqb_spec h label) as [->|Hne].
    + split.
      * split; [lia|]. intros H. destruct H. by left.
      * intros _. split; [lia|].
        replace (Z.to_nat (Z.of_nat i) - i)%nat with 0%nat by lia.
        split; [done|]. intros j Hj. lia.
    + specialize (IH (S i)). cbn zeta in IH. destruct IH as [IH1 IH2].
      split.
      * rewrite IH1. split.
        -- intros H [E|E]; [done|by apply H].
        -- intros H E. apply H. by right.
      * intros Hk. destruct (IH2 Hk) as (H1 & H2 & H3).
        split; [lia|].
        replace (Z.to_nat (indexOf_from (S i) label l) - i)%nat
          with (S (Z.to_nat (indexOf_from (S i) label l) - S i)) by lia.
        split; [done|]. intros [|j] Hj; cbn.
        -- by intros [= E].
        -- apply H3. lia.
Qed.

End HideOneFacts.

Section HidingOne.
Import Store StoreFacts TableLibrary Spec Props HideFacts HideOneFacts.

(** X14.  With a single hide specifier that is not in a list: when it
    resolves to a negative index (a negative number, or a label that is
    no heading), the headings and the rows come out as they are; when it
    resolves to an index from zero on, exactly the position of that index
    is removed from the headings and from every row.  A label that is a
    heading resolves to the first position that holds it. *)
Theorem hide_single_column (c : Config) (hs : list string) (d : loc)
        (σ : store) (spec : hide_spec) :
  config_hideColumns c = HideOne spec ->
  let out := hideColumns c hs d σ in
  let i := resolve hs spec in
  (i < 0 -> out.1.1 = hs /\ table_at out.2 out.1.2 = table_at σ d)
  /\ (0 <= i ->
      out.1.1 = delete (Z.to_nat i) hs
      /\ table_at out.2 out.1.2 = map (delete (Z.to_nat i)) (table_at σ d))
  /\ (forall label, spec = HideLabel label ->
        (i < 0 <-> ~ In label hs)
        /\ (0 <= i ->
            hs !! Z.to_nat i = Some label
            /\ forall j, (j < Z.to_nat i)%nat -> hs !! j <> Some label)).
Proof.
  intros E out i.
  assert (out.1.1
          = filter_index (fun j => negb (includes (hideIndexes hs (HideOne spec)) j)) hs)
    as Hh.
  { subst out. by rewrite ViewFacts.hideColumns_eq, E. }
  assert (table_at out.2 out.1.2
          = map (filter_index
                   (fun j => negb (includes (hideIndexes hs (HideOne spec)) j)))
                (table_at σ d)) as Ht.
  { subst out. by rewrite hideColumns_table, E. }
  unfold hideIndexes in Hh, Ht. cbn [hide_list map List.filter] in Hh, Ht.
  fold i in Hh, Ht.
  split; [|split].
  - intros Hi. destruct (Z.leb_spec 0 i); [lia|].
    rewrite Hh, Ht. unfold filter_index. split.
    + by apply (filter_from_all _ hs 0%nat).
    + rewrite <- (map_id (table_at σ d)) at 2. apply map_ext. intros row.
      by apply (filter_from_all _ row 0%nat).
  - intros Hi. destruct (Z.leb_spec 0 i); [|lia].
    rewrite Hh, Ht. unfold filter_index. split.
    + rewrite filter_from_one by done.
      destruct (Z.ltb_spec i (Z.of_nat 0)); [lia|]. by rewrite Nat.sub_0_r.
    + apply map_ext. intros row. rewrite filter_from_one by done.
      destruct (Z.ltb_spec i (Z.of_nat 0)); [lia|]. by rewrite Nat.sub_0_r.
  - intros label ->. subst i. cbn [resolve]. unfold indexOf.
    pose proof (indexOf_from_spec label hs 0) as H. cbn zeta in H.
    destruct H as [H1 H2]. split; [done|]. intros Hk.
    destruct (H2 Hk) as (_ & H3 & H4). rewrite Nat.sub_0_r in H3, H4. done.
Qed.

End HidingOne.

Section Rules.
Import Store StoreFacts TableLibrary Spec Props ModifyFacts.

(** X15.  The modification stage where no rule throws.  A cell with no
    rule under its heading and none under its coordinates comes out as it
    is.  A cell with a heading rule only comes out as the value that rule
    returns.  A cell whose coordinate rule returns a value comes out as
    that value, whatever the heading rule returned: the coordinate rule
    is given the original cell and its result replaces that of the
    heading rule. *)
Theorem modification_results (c : Config) (mc : gmap string rule)
        (d : loc) (hs : list string) (σ : store) :
  config_modifyConfig c = Some mc ->
  let out := applyModifications c d hs σ in
  forall r ci row cell,
    table_at σ d !! r = Some row -> row !! ci = Some cell ->
    exists row',
      table_at out.2 out.1 !! r = Some row'
      /\ (applied (mc !! heading_key hs ci) cell row r ci = None ->
          applied (mc !! coordinate_key r ci) cell row r ci = None ->
          row' !! ci = Some cell)
      /\ (forall v,
            applied (mc !! heading_key hs ci) cell row r ci = Some (Returns v) ->
            applied (mc !! coordinate_key r ci) cell row r ci = None ->
            row' !! ci = Some v)
      /\ (forall v,
            applied (mc !! heading_key hs ci) cell row r ci <> Some Throws ->
            applied (mc !! coordinate_key r ci) cell row r ci
            = Some (Returns v) ->
            row' !! ci = Some v).
Proof.
  intros E out r ci row cell Hrow Hcell. subst out.
  rewrite (applyModifications_table _ _ _ _ _ E).
  exists (modify_row mc hs r row).
  split; [by rewrite list_lookup_imap, Hrow|].
  unfold modify_row. rewrite list_lookup_imap, Hcell. cbn [fmap option_fmap option_map].
  unfold applied, modify_cell.
  destruct (mc !! heading_key hs ci) as [f|];
    destruct (mc !! coordinate_key r ci) as [g|].
  - split; [done|]. split; [done|]. intros v Hf [= Hg]. rewrite Hg.
    destruct (f cell row r ci); [done|]. by destruct Hf.
  - split; [done|]. split; [|done]. intros v [= ->]. done.
  - split; [done|]. split; [done|]. intros v _ [= ->]. done.
  - split; [done|]. split; done.
Qed.

End Rules.

(* ===================================================================== *)
(** * What the actions leave alone *)
(* ===================================================================== *)

Module FrameFacts.
Import Store StoreFacts TableLibrary TableMethods Spec Props.
Import ViewFacts RunFacts ViewFacts2.

Lemma lookup_extends (σ σ' : store) l :
  σ ⊆ σ' -> l ∈ dom σ -> σ' !! l = σ !! l.
Proof.
  intros Hsub [o Ho]%elem_of_dom. by rewrite Ho, (lookup_weaken _ _ _ _ Ho Hsub).
Qed.

Section WithHost.
Variable host : Host.

(** An action writes to no object but the display array. *)
Lemma step_frame σ0 c p rows0 a (s : Table * store) l :
  view_ok σ0 c p rows0 s -> l ∈ dom s.2 -> l ≠ displayData s.1 ->
  (step host a s).2 !! l = s.2 !! l
  /\ (l ∈ dom (step host a s).2)
  /\ l ≠ displayData (step host a s).1.
Proof.
  intros Hok Hl Hne. pose proof (ok_processed_alloc _ _ _ _ _ Hok) as Hp.
  rewrite <- (ok_processed _ _ _ _ _ Hok) in Hp.
  destruct s as [t σ]. cbn [fst snd] in *. destruct a as [col|inputs].
  - cbn [step fst snd]. rewrite sortByColumn_eq. cbn zeta.
    set (nd := next_direction (sortState t) col).
    set (d := sorted_display host nd col t σ).
    cbn [fst snd displayData].
    assert (d.2 !! l = σ !! l /\ (l ∈ dom d.2) /\ l ≠ d.1) as (H1 & H2 & H3).
    { subst d. destruct nd as [dir|]; cbn [sorted_display fst snd].
      - split; [by rewrite lookup_insert_ne|]. split; [|done].
        apply elem_of_dom. rewrite lookup_insert_ne by done.
        by apply elem_of_dom.
      - split; [apply lookup_extends; [apply copy_array_extends|done]|].
        split; [eapply dom_extends; [apply copy_array_extends|done]|].
        intros ->. by apply (copy_array_fresh (processedData t) σ). }
    split; [|split; [|done]].
    + rewrite <- H1. apply lookup_extends; [apply copy_array_extends|done].
    + eapply dom_extends; [apply copy_array_extends|done].
  - cbn [step fst snd]. unfold filterTable.
    set (entries := map _ _).
    pose proof (alloc_extends (array_of entries) σ) as He.
    destruct (alloc (array_of entries) σ) as [f σ'].
    cbn [fst snd displayData] in *.
    split; [by apply lookup_extends|]. split; [by eapply dom_extends|done].
Qed.

Lemma run_frame σ0 c p rows0 later l : forall (s : Table * store),
  view_ok σ0 c p rows0 s -> l ∈ dom s.2 -> l ≠ displayData s.1 ->
  (run host later s).2 !! l = s.2 !! l.
Proof.
  induction later as [|a later IH]; intros s Hok Hl Hne; [done|].
  destruct (step_frame σ0 c p rows0 a s l Hok Hl Hne) as (H1 & H2 & H3).
  cbn [run fold_left]. fold (run host later (step host a s)).
  rewrite (IH (step host a s)); [done|by apply step_ok|done|done].
Qed.

(** The filtered array is an object of its own. *)
Lemma init_filtered (t : Table) (σ : store) :
  (filteredData (init t σ).1 ∈ dom (init t σ).2)
  /\ filteredData (init t σ).1 ≠ displayData (init t σ).1.
Proof.
  rewrite init_eq. cbn zeta. cbn [fst snd filteredData displayData].
  set (m := applyModifications _ _ _ _).
  set (f := copy_array m.1 m.2).
  set (d := copy_array m.1 f.2).
  assert (f.1 ∈ dom f.2) as Hf by apply copy_array_allocated.
  split.
  - eapply dom_extends; [apply copy_array_extends|done].
  - intros E. apply (copy_array_fresh m.1 f.2). fold d. by rewrite <- E.
Qed.

Lemma step_filtered σ0 c p rows0 cells a (s : Table * store) :
  view_ok σ0 c p rows0 s -> view_more cells s ->
  (filteredData (step host a s).1 ∈ dom (step host a s).2)
  /\ filteredData (step host a s).1 ≠ displayData (step host a s).1.
Proof.
  intros Hok Hm. destruct a as [col|inputs]; cbn [step].
  - pose proof (sorted_display_more host σ0 c p rows0 cells
                  (next_direction (sortState s.1) col) col s Hok Hm) as H.
    cbn zeta in H. destruct H as (_ & _ & _ & H4 & _).
    destruct s as [t σ]. cbn [fst snd] in *.
    rewrite sortByColumn_eq. cbn zeta. cbn [fst snd filteredData displayData].
    set (d := sorted_display host _ col t σ) in *.
    split; [apply copy_array_allocated|].
    intros E. apply (copy_array_fresh d.1 d.2). by rewrite E.
  - pose proof (ok_display_alloc _ _ _ _ _ Hok) as Hd.
    destruct s as [t σ]. cbn [fst snd] in *. unfold filterTable.
    set (entries := map _ _).
    pose proof (alloc_fresh (array_of entries) σ) as Hf.
    pose proof (alloc_lookup (array_of entries) σ) as Hl.
    destruct (alloc (array_of entries) σ) as [f σ'].
    cbn [fst snd filteredData displayData] in *.
    split; [apply elem_of_dom; eauto|]. intros ->. done.
Qed.

Lemma reachable_filtered (c : Config) (σ0 : store) actions :
  let s := run host actions (construct c σ0) in
  (filteredData s.1 ∈ dom s.2) /\ filteredData s.1 ≠ displayData s.1.
Proof.
  induction actions as [|a prefix _] using rev_ind.
  - cbn [run fold_left]. rewrite construct_eq. cbn zeta. apply init_filtered.
  - cbn zeta. unfold run. rewrite fold_left_app. cbn [fold_left].
    fold (run host prefix (construct c σ0)).
    eapply step_filtered; [apply reachable_ok|apply reachable_more].
Qed.

End WithHost.
End FrameFacts.

Section Snapshots.
Import Store StoreFacts TableLibrary TableMethods Spec Props.
Import ViewFacts RunFacts ViewFacts2 FrameFacts.
Variable host : Host.

(** X16.  The array that [getFilteredData] returns in a state reached
    from the constructor is not written to afterwards: after any further
    sort and filter actions it holds the same rows in the same order, and
    every row holds the same cells. *)
Theorem filtered_data_snapshot (c : Config) (σ0 : store)
        (actions later : list action) :
  let s := run host actions (construct c σ0) in
  let v := run host later s in
  v.2 !! getFilteredData s.1 = s.2 !! getFilteredData s.1
  /\ rows_at v.2 (getFilteredData s.1) = rows_at s.2 (getFilteredData s.1)
  /\ (forall r, row_at v.2 r = row_at s.2 r)
  /\ table_at v.2 (getFilteredData s.1) = table_at s.2 (getFilteredData s.1).
Proof.
  intros s v. unfold getFilteredData.
  pose proof (reachable_ok host c σ0 actions) as Hok. fold s in Hok.
  destruct (reachable_filtered host c σ0 actions) as [Hf Hne]. fold s in Hf, Hne.
  pose proof (run_frame host _ _ _ _ later _ s Hok Hf Hne) as E. fold v in E.
  pose proof (reachable_more host c σ0 actions) as Hm. fold s in Hm.
  pose proof (reachable_more host c σ0 (actions ++ later)) as Hm'.
  unfold run in Hm'. rewrite fold_left_app in Hm'.
  fold (run host actions (construct c σ0)) in Hm'. fold s in Hm'.
  fold (run host later s) in Hm'. fold v in Hm'.
  assert (rows_at v.2 (getFilteredData s.1) = rows_at s.2 (getFilteredData s.1))
    as Hr.
  { unfold getFilteredData, rows_at. by rewrite E. }
  assert (forall r, row_at v.2 r = row_at s.2 r) as Hc.
  { intros r. by rewrite (more_cells _ _ Hm'), (more_cells _ _ Hm). }
  split; [done|]. split; [done|]. split; [done|]. by apply table_at_eq.
Qed.

End Snapshots.

(* ===================================================================== *)
(** * Metrics of a column with numbers *)
(* ===================================================================== *)

Module MetricFacts.
Import JsNumber NumberFacts CellFacts.

Lemma append_nonempty_l a b : a <> "" -> a +:+ b <> "".
Proof. by destruct a. Qed.

Lemma append_nonempty_r a b : b <> "" -> a +:+ b <> "".
Proof. destruct a; [done|]. intros _. done. Qed.

Lemma layout_nonempty s n : layout s n <> "".
Proof.
  unfold layout. pose proof (digits_nonempty s) as Hd.
  destruct ((-5 <=? n) && (n <=? 21)).
  - destruct (_ <=? n); [by apply append_nonempty_l|].
    destruct (0 <? n).
    + apply append_nonempty_r. by apply append_nonempty_l.
    + by apply append_nonempty_l.
  - apply append_nonempty_r. by apply append_nonempty_l.
Qed.

Lemma finite_toString_nonempty m e : finite_toString m e <> "".
Proof.
  unfold finite_toString. destruct (shortest _ _ _ _). apply layout_nonempty.
Qed.

Lemma toFixed2_nonempty x : toFixed2 x <> "".
Proof.
  unfold toFixed2, toString.
  destruct (Prim2SF x) as [s|s| |s m e]; try done; [by destruct s|].
  apply append_nonempty_r. destruct (at_least_1e21 _ _).
  - apply finite_toString_nonempty.
  - unfold fixed2_digits. apply append_nonempty_l, digits_nonempty.
Qed.

End MetricFacts.

Section NumericColumns.
Import JsValue Store StoreFacts TableLibrary TableMethods Spec Props.
Import ListFacts ViewFacts RunFacts ViewFacts2 SortFacts MetricFacts.
Variable host : Host.

(** X17.  In every state reached from the constructor where no displayed
    row is filtered out, as it is right after the constructor and after
    every sort, a column for which [isNumericColumn] gave true has a
    metric to show: [calculateMetric] returns a text that is not empty
    for each of sum, avg, max and min. *)
Theorem metric_of_numeric_column (c : Config) (σ0 : store)
        (actions : list action) (col : nat) (type : string) :
  let s := run host actions (construct c σ0) in
  rows_at s.2 (filteredData s.1) = rows_at s.2 (displayData s.1) ->
  isNumericColumn s.1 col s.2 = true ->
  In type ["sum"; "avg"; "max"; "min"] ->
  exists text, calculateMetric s.1 col type s.2 = Some text /\ text <> "".
Proof.
  intros s Hall Hnum Htype.
  pose proof (reachable_ok host c σ0 actions) as Hok. fold s in Hok.
  unfold isNumericColumn in Hnum. apply existsb_exists in Hnum.
  destruct Hnum as (row & Hrow & Hcell).
  assert (In row (table_at s.2 (filteredData s.1))) as Hin.
  { unfold table_at in *. rewrite Hall.
    eapply Permutation_in; [|exact Hrow]. apply Permutation_map.
    rewrite (ok_processed _ _ _ _ _ Hok), (ok_processed_rows _ _ _ _ _ Hok).
    symmetry. apply (ok_perm _ _ _ _ _ Hok). }
  assert (rows_of s.2 (filteredData s.1)
          = Some (rows_at s.2 (filteredData s.1))) as Hrows.
  { apply rows_of_array. unfold table_at in Hin. unfold is_array, rows_at in *.
    by destruct (s.2 !! filteredData s.1) as [[cells|rows|entries]|]. }
  unfold calculateMetric. rewrite Hrows.
  fold (table_at s.2 (filteredData s.1)).
  assert (column_numbers (table_at s.2 (filteredData s.1)) col <> []) as Hne.
  { unfold column_numbers. intros E. apply map_eq_nil in E.
    assert (In (cell_at row col)
               (List.filter is_numeric
                  (map (fun row => cell_at row col)
                       (table_at s.2 (filteredData s.1))))) as H.
    { apply filter_In. split; [|done]. apply in_map_iff. by exists row. }
    by rewrite E in H. }
  destruct (column_numbers _ col) as [|x values]; [done|].
  eexists. split; [reflexivity|]. cbn [metric].
  destruct Htype as [<-|[<-|[<-|[<-|[]]]]]; cbn; apply toFixed2_nonempty.
Qed.

End NumericColumns.

(* ===================================================================== *)
(** * The further properties at concrete tables *)
(* ===================================================================== *)

Section MoreExamples.
Import JsValue Store TableLibrary TableMethods Spec Props.

(** The export of the sample row under its headings, read back. *)
Lemma csv_header_round_trip_sample :
  forallb quote_free ["Name"; "Age"] = true
  /\ read (csvContent code_order_host ["Name"; "Age"]
                      [[VStr "Al"; VNum 26]] true)
     = Some [["Name"; "Age"]; ["Al"; "26"]].
Proof.
  split; [reflexivity|].
  exact (csv_header_round_trip code_order_host ["Name"; "Age"]
           [[VStr "Al"; VNum 26]] eq_refl).
Defined.

(** A number and the string of its digits are exported alike: the two
    tables have the same export and the same cell texts. *)
Lemma csv_export_injective_sample :
  csvContent code_order_host ["N"] [[VNum 1]] true
  = csvContent code_order_host ["N"] [[VStr "1"]] true
  /\ map (map (Cell.exportText code_order_host)) [[VNum 1]]
     = map (map (Cell.exportText code_order_host)) [[VStr "1"]].
Proof.
  split; [reflexivity|].
  exact (csv_export_injective code_order_host ["N"] [[VNum 1]] [[VStr "1"]]
           true eq_refl).
Defined.

(** After three requests for the column Age no sort is active, and the
    checked indexes 1 and 0 report the displayed rows. *)
Lemma checked_rows_sample :
  let s := run code_order_host [Sort 1%nat; Sort 1%nat; Sort 1%nat]
               (construct sample_config sample_store) in
  sortState s.1 = inactive
  /\ getCheckedRows [1%nat; 0%nat] s.1 s.2
     = map (fun i => (i, rows_at s.2 (displayData s.1) !! i)) [1%nat; 0%nat].
Proof.
  intros s.
  assert (sortState s.1 = inactive) as E by reflexivity.
  split; [exact E|].
  destruct (checked_rows code_order_host sample_config sample_store
              [Sort 1%nat; Sort 1%nat; Sort 1%nat] [1%nat; 0%nat])
    as (_ & _ & H).
  exact (proj2 (H E)).
Defined.


(** After a sort the two differ: the check box of the first displayed row
    reports the first processed row, which is displayed second. *)
Example scenario_checked_after_sort :
  let s := run code_order_host [Sort 1%nat]
               (construct sample_config sample_store) in
  table_at s.2 (displayData s.1)
  = [[VStr "Al"; VNum 26]; [VStr "Bob"; VNum 31]]
  /\ map (fun entry => option_map (row_at s.2) entry.2)
         (getCheckedRows [0%nat] s.1 s.2)
     = [Some [VStr "Bob"; VNum 31]].
Proof. vm_compute. done. Qed.

(** Inputs of white space only, after a sort of the sample table, on the
    body the sort has written. *)
Lemma filter_blank_sample :
  forallb blank ["  "; ""] = true
  /\ let s := run code_order_host [Sort 1%nat]
                  (construct sample_config sample_store) in
     let s' := filterTable ["  "; ""] sorted_sample_body s.1 s.2 in
     length sorted_sample_body = length (rows_at s.2 (displayData s.1))
     /\ rows_at s'.2 (filteredData s'.1) = rows_at s'.2 (displayData s'.1).
Proof.
  split; [reflexivity|]. intros s s'.
  assert (length sorted_sample_body = length (rows_at s.2 (displayData s.1)))
    as Hlen by reflexivity.
  split; [exact Hlen|].
  destruct (filter_blank code_order_host sample_config sample_store
              [Sort 1%nat] ["  "; ""] sorted_sample_body eq_refl)
    as (_ & _ & H).
  exact (proj2 (H Hlen)).
Defined.

(** The inputs AL and al on the sample table. *)
Lemma filter_ignores_case_sample :
  map JsString.toLowerCase ["AL"] = map JsString.toLowerCase ["al"]
  /\ let s := construct sample_config sample_store in
     filterTable ["AL"] sample_body s.1 s.2
     = filterTable ["al"] sample_body s.1 s.2.
Proof.
  split; [reflexivity|].
  exact (filter_ignores_case ["AL"] ["al"] sample_body
           (construct sample_config sample_store).1
           (construct sample_config sample_store).2 eq_refl).
Defined.

(** Typing one more letter in the first input and a digit in the second
    one narrows the result. *)
Lemma filter_narrows_sample :
  narrows ["a"; ""] ["al"; "2"] = true
  /\ let s := construct sample_config sample_store in
     let a := filterTable ["a"; ""] sample_body s.1 s.2 in
     let b := filterTable ["al"; "2"] sample_body s.1 s.2 in
     entries_at b.2 (filteredData b.1)
     `sublist_of` entries_at a.2 (filteredData a.1).
Proof.
  split; [reflexivity|].
  exact (filter_narrows ["a"; ""] ["al"; "2"] sample_body
           (construct sample_config sample_store).1
           (construct sample_config sample_store).2 eq_refl).
Defined.

(** The column Name of the sample table holds no number: no metric of it
    is written, whatever the run. *)
Lemma metric_of_column_without_numbers_sample :
  let s0 := construct sample_config sample_store in
  let s := run code_order_host
               [Sort 1%nat; Filter ["al"] sorted_sample_body] s0 in
  isNumericColumn s0.1 0 s0.2 = false
  /\ calculateMetric s.1 0 "sum" s.2 = Some "".
Proof.
  intros s0 s. split; [reflexivity|].
  exact (proj2 (metric_of_column_without_numbers code_order_host sample_config
                  sample_store [Sort 1%nat; Filter ["al"] sorted_sample_body]
                  0%nat)
               eq_refl "sum").
Defined.

(** The comparator of the column Age is consistent on the sample table;
    after a sort on it and a filter the rows are in its order. *)
Lemma sorted_rows_ordered_sample :
  let s0 := construct sample_config sample_store in
  let s := run code_order_host
               [Sort 1%nat; Filter ["b"] sorted_sample_body] s0 in
  consistent_on (compareFn code_order_host Asc 1)
                (table_at s0.2 (processedData s0.1)) = true
  /\ sortState s.1 = active 1 Asc
  /\ ordered (compareFn code_order_host Asc 1)
             (table_at s.2 (displayData s.1)) = true
  /\ ordered (compareFn code_order_host Asc 1)
             (map (row_at s.2) (defined_rows s.2 (filteredData s.1))) = true.
Proof.
  intros s0 s. split; [reflexivity|]. split; [reflexivity|].
  exact (sorted_rows_ordered code_order_host sample_config sample_store
           [Sort 1%nat; Filter ["b"] sorted_sample_body] 1%nat Asc
           eq_refl eq_refl).
Defined.

(** After the sort on the column Age the rows are also in the order of
    the names: a request for the column Name leaves them where they
    are. *)
Lemma sort_keeps_ordered_rows_sample :
  let s := run code_order_host [Sort 1%nat]
               (construct sample_config sample_store) in
  let s' := sortByColumn code_order_host 0 s.1 s.2 in
  next_direction (sortState s.1) 0 = Some Asc
  /\ ordered (compareFn code_order_host Asc 0)
             (table_at s.2 (displayData s.1)) = true
  /\ rows_at s'.2 (displayData s'.1) = rows_at s.2 (displayData s.1).
Proof.
  intros s s'. split; [reflexivity|]. split; [reflexivity|].
  exact (proj1 (sort_keeps_ordered_rows code_order_host sample_config
                  sample_store [Sort 1%nat] 0%nat Asc eq_refl eq_refl)).
Defined.

(** The first of two columns hidden by its label. *)
Lemma hide_single_column_sample :
  config_hideColumns hide_label_config = HideOne (HideLabel "A")
  /\ 0 <= resolve ["A"; "B"] (HideLabel "A")
  /\ let out := hideColumns hide_label_config ["A"; "B"] 2%positive
                  two_column_store in
     out.1.1 = ["B"]
     /\ table_at out.2 out.1.2 = [[VStr "y"]].
Proof.
  split; [reflexivity|]. split; [by vm_compute|].
  exact (proj1 (proj2 (hide_single_column hide_label_config ["A"; "B"]
                         2%positive two_column_store (HideLabel "A") eq_refl))
               ltac:(by vm_compute)).
Defined.

(** The heading rule returns b, the coordinate rule returns c, and the
    cell comes out as c. *)
Lemma modification_results_sample :
  config_modifyConfig both_rules_config = Some both_rules
  /\ let out := applyModifications both_rules_config 2%positive ["H"]
                  one_cell_store in
     exists row',
       table_at out.2 out.1 !! 0%nat = Some row'
       /\ row' !! 0%nat = Some (VStr "c").
Proof.
  split; [reflexivity|].
  destruct (modification_results both_rules_config both_rules 2%positive
              ["H"] one_cell_store eq_refl 0%nat 0%nat [VStr "a"] (VStr "a")
              eq_refl eq_refl)
    as (row' & Hrow & _ & _ & Hboth).
  exists row'. split; [exact Hrow|].
  apply Hboth; [discriminate|reflexivity].
Defined.

(** After a sort of the sample table every displayed row is in the
    filtered rows, and the column Age has an average to show. *)
Lemma metric_of_numeric_column_sample :
  let s := run code_order_host [Sort 1%nat]
               (construct sample_config sample_store) in
  rows_at s.2 (filteredData s.1) = rows_at s.2 (displayData s.1)
  /\ isNumericColumn s.1 1 s.2 = true
  /\ In "avg" ["sum"; "avg"; "max"; "min"]
  /\ exists text, calculateMetric s.1 1 "avg" s.2 = Some text /\ text <> "".
Proof.
  intros s. split; [reflexivity|]. split; [reflexivity|].
  split; [right; left; reflexivity|].
  exact (metric_of_numeric_column code_order_host sample_config sample_store
           [Sort 1%nat] 1%nat "avg" eq_refl eq_refl
           (or_intror (or_introl eq_refl))).
Defined.

End MoreExamples.
